(** * Login page: attempt tracking, form validation and error translation

    A shallow embedding of [main.js] (the login component) and of the
    parts of the JavaScript runtime it relies on: the regular expression
    of [isValidEmail], [JSON.parse] / [JSON.stringify] on the persisted
    attempt record, the module-level bindings [loginAttempts] and
    [isLocked], and the [try / catch / finally] shape of the handlers.

    Conventions of the model.
    - A JavaScript string is the list of its code units; the model covers
      the strings whose code units are below 256 and writes them as
      [string].  Strings decoded by [JSON.parse] may hold any 16-bit code
      unit (from [\uXXXX] escapes) and are kept as lists of numbers.
    - A JavaScript number is a binary64 float; the counters and the
      millisecond time stamps of this program are integers in the safe
      range, where the arithmetic used here ([+ 1], [-], comparisons) is
      exact, and they are modelled by [Z].
    - The item read from storage is followed when it is absent, empty,
      not JSON at all, or the JSON text of an attempt record (an object
      with the integer members [count] and [timestamp], in this order),
      as every text the program stores is.  With a JSON value of another
      shape the code goes on by the coercions of JavaScript; these are
      not embedded, and such a run ends in the result [Unmodelled].
    - The DOM, the console, timers and the identity provider are
      collaborators: a call made to them is recorded in a log, in program
      order; the provider's answers are inputs of the handlers. *)

From Stdlib Require Import ZArith Lia List Bool Ascii String.
From Stdlib Require Import Decimal DecimalFacts DecimalString DecimalN DecimalZ.
Import ListNotations.
Local Open Scope string_scope.
Local Open Scope Z_scope.

Set Implicit Arguments.
Set Warnings "-register-all".

(* ================================================================= *)
(** ** Strings *)

(** The characters matched by [\s] in a regular expression and removed by
    [String.prototype.trim]: TAB, LF, VT, FF, CR, SPACE and NO-BREAK SPACE
    (the members of WhiteSpace and LineTerminator below 256). *)
Definition is_space (c : ascii) : bool :=
  let n := N_of_ascii c in
  ((9 <=? n) && (n <=? 13) || (n =? 32) || (n =? 160))%N.

Fixpoint forall_chars (p : ascii -> bool) (s : string) : bool :=
  match s with
  | EmptyString => true
  | String c s' => p c && forall_chars p s'
  end.

Fixpoint trim_start (s : string) : string :=
  match s with
  | EmptyString => EmptyString
  | String c s' => if is_space c then trim_start s' else s
  end.

(** [trim_end] keeps a character when it is not a space or when something
    that is kept follows it. *)
Fixpoint trim_end (s : string) : string :=
  match s with
  | EmptyString => EmptyString
  | String c s' =>
      match trim_end s' with
      | EmptyString => if is_space c then EmptyString else String c EmptyString
      | t => String c t
      end
  end.

(** [s.trim()] *)
Definition trim (s : string) : string := trim_end (trim_start s).

(** [!s] is false exactly for a non-empty string. *)
Definition truthy (s : string) : bool :=
  match s with EmptyString => false | _ => true end.

(** [String(n)] for an integer [n]: decimal digits, [-] for a negative. *)
Definition string_of_Z (n : Z) : string :=
  NilZero.string_of_int (Z.to_int n).

(** [Math.ceil(x / d)] for integers [x] and [d > 0]. *)
Definition ceil_div (x d : Z) : Z := - ((- x) / d).

(* ================================================================= *)
(** ** Regular expressions *)

(** The fragment of the regular expression language that [emailRegex]
    uses: character classes, concatenation and [+]; [Alt], [Eps] and
    [Void] are what the derivative of such an expression needs. *)
Inductive regex : Type :=
| Void
| Eps
| Class (p : ascii -> bool)
| Cat (r1 r2 : regex)
| Alt (r1 r2 : regex)
| Star (r : regex).

(** [r+] *)
Definition Plus (r : regex) : regex := Cat r (Star r).

(** A literal character, as [@] or [\.] *)
Definition Chr (a : ascii) : regex := Class (Ascii.eqb a).

Fixpoint nullable (r : regex) : bool :=
  match r with
  | Void => false
  | Eps => true
  | Class _ => false
  | Cat r1 r2 => nullable r1 && nullable r2
  | Alt r1 r2 => nullable r1 || nullable r2
  | Star _ => true
  end.

Fixpoint deriv (c : ascii) (r : regex) : regex :=
  match r with
  | Void => Void
  | Eps => Void
  | Class p => if p c then Eps else Void
  | Cat r1 r2 =>
      Alt (Cat (deriv c r1) r2) (if nullable r1 then deriv c r2 else Void)
  | Alt r1 r2 => Alt (deriv c r1) (deriv c r2)
  | Star r1 => Cat (deriv c r1) (Star r1)
  end.

(** [/^r$/.test(s)]: the whole of [s] matches [r]. *)
Fixpoint regex_test (r : regex) (s : string) : bool :=
  match s with
  | EmptyString => nullable r
  | String c s' => regex_test (deriv c r) s'
  end.

(** The words of a regular expression. *)
Inductive lang : regex -> string -> Prop :=
| L_eps : lang Eps ""
| L_class p c : p c = true -> lang (Class p) (String c "")
| L_cat r1 r2 s1 s2 : lang r1 s1 -> lang r2 s2 -> lang (Cat r1 r2) (s1 ++ s2)
| L_alt_l r1 r2 s : lang r1 s -> lang (Alt r1 r2) s
| L_alt_r r1 r2 s : lang r2 s -> lang (Alt r1 r2) s
| L_star_nil r : lang (Star r) ""
| L_star_cons r s1 s2 :
    lang r s1 -> lang (Star r) s2 -> lang (Star r) (s1 ++ s2).

(** [[^\s@]] *)
Definition not_space_at (c : ascii) : bool :=
  negb (is_space c || Ascii.eqb c "@").

(** [/^[^\s@]+@[^\s@]+\.[^\s@]+$/] *)
Definition emailRegex : regex :=
  Cat (Plus (Class not_space_at))
    (Cat (Chr "@")
       (Cat (Plus (Class not_space_at))
          (Cat (Chr ".") (Plus (Class not_space_at))))).

Definition isValidEmail (email : string) : bool :=
  regex_test emailRegex email.

(** The claim's wording: a non-empty run of characters that are neither
    white space nor [@]. *)
Definition plain_run (s : string) : Prop :=
  s <> "" /\ forall_chars not_space_at s = true.

(* ================================================================= *)
(** ** JSON *)

(** A decoded JSON string: its code units. *)
Definition jstring : Type := list N.

Definition jstr (s : string) : jstring :=
  List.map N_of_ascii (list_ascii_of_string s).

(** The value of a JSON text.  A number literal is kept exactly, as
    mantissa and decimal exponent: [JNum m e] stands for [m * 10^e]. *)
Inductive json : Type :=
| JNull
| JBool (b : bool)
| JNum (m e : Z)
| JStr (s : jstring)
| JArr (items : list json)
| JObj (fields : list (jstring * json)).

Inductive token : Type :=
| TLBrace | TRBrace | TLBrack | TRBrack | TColon | TComma
| TStr (s : jstring)
| TScalar (v : json).

(** The quotation mark, code unit 34. *)
Definition dquote : ascii := ascii_of_N 34.

(** States of the scanner.  Digits are collected last digit first. *)
Inductive lstate : Type :=
| LStart
| LWord (rest : string) (v : json)
| LMinus
| LZero (neg : bool)
| LInt (neg : bool) (ds : uint)
| LDot (neg : bool) (ds : uint)
| LFrac (neg : bool) (ds : uint) (k : Z)
| LE (neg : bool) (ds : uint) (k : Z)
| LESign (neg : bool) (ds : uint) (k : Z) (eneg : bool)
| LExp (neg : bool) (ds : uint) (k : Z) (eneg : bool) (es : uint)
| LStr (acc : jstring)
| LEsc (acc : jstring)
| LHex (acc : jstring) (n : nat) (v : N).

Definition signed (neg : bool) (n : Z) : Z := if neg then - n else n.

Definition number_value (neg : bool) (ds : uint) (k : Z)
    (eneg : bool) (es : uint) : json :=
  JNum (signed neg (Z.of_uint (Decimal.rev ds)))
       (signed eneg (Z.of_uint (Decimal.rev es)) - k).

(** The number a scanner state has read, when it may end there. *)
Definition finish_number (st : lstate) : option token :=
  match st with
  | LZero neg => Some (TScalar (number_value neg (D0 Nil) 0 false Nil))
  | LInt neg ds => Some (TScalar (number_value neg ds 0 false Nil))
  | LFrac neg ds k => Some (TScalar (number_value neg ds k false Nil))
  | LExp neg ds k eneg es => Some (TScalar (number_value neg ds k eneg es))
  | _ => None
  end.

Definition hex_value (c : ascii) : option N :=
  let n := N_of_ascii c in
  if ((48 <=? n) && (n <=? 57))%N then Some (n - 48)%N
  else if ((65 <=? n) && (n <=? 70))%N then Some (n - 55)%N
  else if ((97 <=? n) && (n <=? 102))%N then Some (n - 87)%N
  else None.

(** A character read between two tokens. *)
Definition start_step (c : ascii) : option (list token * lstate) :=
  if Ascii.eqb c dquote then Some ([], LStr [])
  else
    match c with
    | " " | "009" | "010" | "013" => Some ([], LStart)
    | "{" => Some ([TLBrace], LStart)
    | "}" => Some ([TRBrace], LStart)
    | "[" => Some ([TLBrack], LStart)
    | "]" => Some ([TRBrack], LStart)
    | ":" => Some ([TColon], LStart)
    | "," => Some ([TComma], LStart)
    | "-" => Some ([], LMinus)
    | "0" => Some ([], LZero false)
    | "t" => Some ([], LWord "rue" (JBool true))
    | "f" => Some ([], LWord "alse" (JBool false))
    | "n" => Some ([], LWord "ull" JNull)
    | _ =>
        match uint_of_char c (Some Nil) with
        | Some d => Some ([], LInt false d)
        | None => None
        end
    end%char.

(** A character that cannot continue the number being read ends it and
    is then read as the start of what follows. *)
Definition end_number (st : lstate) (c : ascii) : option (list token * lstate) :=
  match finish_number st, start_step c with
  | Some t, Some (ts, st') => Some (t :: ts, st')
  | _, _ => None
  end.

Definition is_exp_mark (c : ascii) : bool :=
  (Ascii.eqb c "e" || Ascii.eqb c "E")%char.

Definition lex_step (st : lstate) (c : ascii) : option (list token * lstate) :=
  match st with
  | LStart => start_step c
  | LWord rest v =>
      match rest with
      | String x EmptyString =>
          if Ascii.eqb c x then Some ([TScalar v], LStart) else None
      | String x rest' =>
          if Ascii.eqb c x then Some ([], LWord rest' v) else None
      | EmptyString => None
      end
  | LMinus =>
      if Ascii.eqb c "0" then Some ([], LZero true)
      else match uint_of_char c (Some Nil) with
           | Some d => Some ([], LInt true d)
           | None => None
           end
  | LZero neg =>
      if Ascii.eqb c "." then Some ([], LDot neg (D0 Nil))
      else if is_exp_mark c then Some ([], LE neg (D0 Nil) 0)
      else match uint_of_char c (Some Nil) with
           | Some _ => None
           | None => end_number st c
           end
  | LInt neg ds =>
      match uint_of_char c (Some ds) with
      | Some ds' => Some ([], LInt neg ds')
      | None =>
          if Ascii.eqb c "." then Some ([], LDot neg ds)
          else if is_exp_mark c then Some ([], LE neg ds 0)
          else end_number st c
      end
  | LDot neg ds =>
      match uint_of_char c (Some ds) with
      | Some ds' => Some ([], LFrac neg ds' 1)
      | None => None
      end
  | LFrac neg ds k =>
      match uint_of_char c (Some ds) with
      | Some ds' => Some ([], LFrac neg ds' (k + 1))
      | None =>
          if is_exp_mark c then Some ([], LE neg ds k)
          else end_number st c
      end
  | LE neg ds k =>
      if Ascii.eqb c "+" then Some ([], LESign neg ds k false)
      else if Ascii.eqb c "-" then Some ([], LESign neg ds k true)
      else match uint_of_char c (Some Nil) with
           | Some es => Some ([], LExp neg ds k false es)
           | None => None
           end
  | LESign neg ds k eneg =>
      match uint_of_char c (Some Nil) with
      | Some es => Some ([], LExp neg ds k eneg es)
      | None => None
      end
  | LExp neg ds k eneg es =>
      match uint_of_char c (Some es) with
      | Some es' => Some ([], LExp neg ds k eneg es')
      | None => end_number st c
      end
  | LStr acc =>
      if Ascii.eqb c dquote then Some ([TStr (List.rev acc)], LStart)
      else if Ascii.eqb c "\" then Some ([], LEsc acc)
      else if (N_of_ascii c <? 32)%N then None
      else Some ([], LStr (N_of_ascii c :: acc))
  | LEsc acc =>
      if Ascii.eqb c dquote then Some ([], LStr (34%N :: acc))
      else
        match c with
        | "\" => Some ([], LStr (92%N :: acc))
        | "/" => Some ([], LStr (47%N :: acc))
        | "b" => Some ([], LStr (8%N :: acc))
        | "f" => Some ([], LStr (12%N :: acc))
        | "n" => Some ([], LStr (10%N :: acc))
        | "r" => Some ([], LStr (13%N :: acc))
        | "t" => Some ([], LStr (9%N :: acc))
        | "u" => Some ([], LHex acc 0 0%N)
        | _ => None
        end
  | LHex acc n v =>
      match hex_value c with
      | Some h =>
          let v' := (16 * v + h)%N in
          match n with
          | 3%nat => Some ([], LStr (v' :: acc))
          | _ => Some ([], LHex acc (S n) v')
          end
      | None => None
      end
  end%char.

(** The tokens [ts] followed by those of the rest of the text. *)
Definition prepend (ts : list token) (o : option (list token))
  : option (list token) :=
  match ts with
  | [] => o
  | _ => option_map (List.app ts) o
  end.

(** The tokens of a text; [None] when the text is not made of JSON
    tokens. *)
Fixpoint lex (st : lstate) (s : string) : option (list token) :=
  match s with
  | EmptyString =>
      match st with
      | LStart => Some []
      | _ => option_map (fun t => [t]) (finish_number st)
      end
  | String c s' =>
      match lex_step st c with
      | Some (ts, st') => prepend ts (lex st' s')
      | None => None
      end
  end.

(** An array or an object whose closing bracket has not been read. *)
Inductive frame : Type :=
| FArr (items : list json)
| FObj (fields : list (jstring * json))
| FKey (fields : list (jstring * json)) (key : jstring).

(** What the parser expects next. *)
Inductive pmode : Type :=
| MValue | MArrFirst | MArrNext | MObjFirst | MObjKey | MColon | MObjNext
| MDone (v : json).

(** A value [v] has been read completely. *)
Definition complete (v : json) (stack : list frame)
  : option (pmode * list frame) :=
  match stack with
  | [] => Some (MDone v, [])
  | FArr items :: r => Some (MArrNext, FArr (v :: items) :: r)
  | FKey fields k :: r => Some (MObjNext, FObj ((k, v) :: fields) :: r)
  | FObj _ :: _ => None
  end.

Definition value_step (t : token) (stack : list frame)
  : option (pmode * list frame) :=
  match t with
  | TScalar v => complete v stack
  | TStr s => complete (JStr s) stack
  | TLBrack => Some (MArrFirst, FArr [] :: stack)
  | TLBrace => Some (MObjFirst, FObj [] :: stack)
  | _ => None
  end.

Definition parse_step (m : pmode) (stack : list frame) (t : token)
  : option (pmode * list frame) :=
  match m, t, stack with
  | MValue, _, _ => value_step t stack
  | MArrFirst, TRBrack, FArr _ :: r => complete (JArr []) r
  | MArrFirst, _, _ => value_step t stack
  | MArrNext, TComma, _ => Some (MValue, stack)
  | MArrNext, TRBrack, FArr items :: r => complete (JArr (List.rev items)) r
  | MObjFirst, TRBrace, FObj _ :: r => complete (JObj []) r
  | MObjFirst, TStr k, FObj fields :: r => Some (MColon, FKey fields k :: r)
  | MObjKey, TStr k, FObj fields :: r => Some (MColon, FKey fields k :: r)
  | MColon, TColon, _ => Some (MValue, stack)
  | MObjNext, TComma, _ => Some (MObjKey, stack)
  | MObjNext, TRBrace, FObj fields :: r => complete (JObj (List.rev fields)) r
  | _, _, _ => None
  end.

Fixpoint parse_tokens (m : pmode) (stack : list frame) (ts : list token)
  : option json :=
  match ts with
  | [] => match m with MDone v => Some v | _ => None end
  | t :: ts' =>
      match parse_step m stack t with
      | Some (m', stack') => parse_tokens m' stack' ts'
      | None => None
      end
  end.

(** [JSON.parse(s)]: the value of the text, or [None] where [JSON.parse]
    throws a [SyntaxError]. *)
Definition JSON_parse (s : string) : option json :=
  match lex LStart s with
  | Some ts => parse_tokens MValue [] ts
  | None => None
  end.

(* ================================================================= *)
(** ** The attempt record and its JSON text *)

Record AttemptRecord : Type := { count : Z; timestamp : Z }.

(** The object [{ count: c, timestamp: t }]. *)
Definition json_of_record (r : AttemptRecord) : json :=
  JObj [(jstr "count", JNum (count r) 0);
        (jstr "timestamp", JNum (timestamp r) 0)].

Definition jstring_eqb (a b : jstring) : bool :=
  if list_eq_dec N.eq_dec a b then true else false.

(** The typed view of a parsed value: an object with the two fields
    [count] and [timestamp], in this order, both written as integers.
    The program only ever stores such texts; what it does with a value of
    another shape (by the coercions of [>=], [++] and [-]) is outside the
    model. *)
Definition record_of_json (j : json) : option AttemptRecord :=
  match j with
  | JObj [(k1, JNum c 0); (k2, JNum t 0)] =>
      if jstring_eqb k1 (jstr "count") && jstring_eqb k2 (jstr "timestamp")
      then Some {| count := c; timestamp := t |}
      else None
  | _ => None
  end.

Definition quoted (s : string) : string :=
  String dquote s ++ String dquote "".

(** [JSON.stringify(r)] for an attempt record. *)
Definition JSON_stringify (r : AttemptRecord) : string :=
  "{" ++ quoted "count" ++ ":" ++ string_of_Z (count r) ++
  "," ++ quoted "timestamp" ++ ":" ++ string_of_Z (timestamp r) ++ "}".

(* ================================================================= *)
(** ** Configuration *)

Record Config : Type := {
  maxLoginAttempts : Z;
  lockoutDuration : Z;
  minPasswordLength : Z;
  enableRateLimiting : bool
}.

Definition CONFIG : Config := {|
  maxLoginAttempts := 5;
  lockoutDuration := 15 * 60 * 1000;
  minPasswordLength := 6;
  enableRateLimiting := true
|}.

(* ================================================================= *)
(** ** Program state, effects and exceptions *)

(** The error object of a rejected provider call: [error.code] and
    [error.message], either of which may be missing. *)
Record AuthError : Type := {
  code : option string;
  message : option string
}.

Inductive exn : Type :=
| SyntaxError
| ReferenceError
| Rejected (err : AuthError).

(** Calls made to the collaborators, in program order. *)
Inductive Event : Type :=
| PreventDefault
| ShowMessage (text type : string)
| ClearMessages
| ShowFieldError (fieldName text : string)
| DisableForm
| SetLoading (loading : bool) (buttonId : string)
| ConsoleError (label : string) (e : exn)
| SetPersistence (local : bool)
| SignInWithEmailAndPassword (email password : option string)
| SignInWithPopup (scopes : list string)
| SetTimeout (href : string) (delay : Z).

(** [localStorage] holds the item stored under the key [loginAttempts],
    if any.  [loginAttempts] and [isLocked] are the two [let] bindings of
    the module; [None] is a binding that is not yet initialised, which
    reading and assigning both answer with a [ReferenceError]. *)
Record State : Type := {
  localStorage : option string;
  loginAttempts : option AttemptRecord;
  isLocked : option bool;
  clock : Z;
  log : list Event
}.

Inductive result (A : Type) : Type :=
| Ok (a : A)
| Throw (e : exn)
| Unmodelled.
Arguments Throw {A} e.
Arguments Unmodelled {A}.

Definition M (A : Type) : Type := State -> result A * State.

Definition ret {A} (a : A) : M A := fun s => (Ok a, s).

Definition bind {A B} (m : M A) (f : A -> M B) : M B :=
  fun s =>
    match m s with
    | (Ok a, s') => f a s'
    | (Throw e, s') => (Throw e, s')
    | (Unmodelled, s') => (Unmodelled, s')
    end.

Definition throw {A} (e : exn) : M A := fun s => (Throw e, s).

Notation "x <- m ;; k" := (bind m (fun x => k))
  (at level 61, m at next level, right associativity).
Notation "m ;; k" := (bind m (fun _ => k))
  (at level 61, right associativity).

(** [try { body } catch (e) { handler } finally { final }] *)
Definition try_catch_finally (body : M unit) (handler : exn -> M unit)
    (final : M unit) : M unit :=
  fun s =>
    match body s with
    | (Ok _, s1) => final s1
    | (Throw e, s1) =>
        match handler e s1 with
        | (Ok _, s2) => final s2
        | (Throw e', s2) =>
            match final s2 with
            | (Ok _, s3) => (Throw e', s3)
            | r => r
            end
        | (Unmodelled, s2) => (Unmodelled, s2)
        end
    | (Unmodelled, s1) => (Unmodelled, s1)
    end.

Definition emit (e : Event) : M unit :=
  fun s => (Ok tt, {| localStorage := localStorage s;
                      loginAttempts := loginAttempts s;
                      isLocked := isLocked s;
                      clock := clock s;
                      log := log s ++ [e] |}).

(** [Date.now()] *)
Definition Date_now : M Z := fun s => (Ok (clock s), s).

(** [localStorage.getItem("loginAttempts")] *)
Definition getItem : M (option string) := fun s => (Ok (localStorage s), s).

(** [localStorage.setItem("loginAttempts", v)] and
    [localStorage.removeItem("loginAttempts")] *)
Definition setStorage (v : option string) : M unit :=
  fun s => (Ok tt, {| localStorage := v;
                      loginAttempts := loginAttempts s;
                      isLocked := isLocked s;
                      clock := clock s;
                      log := log s |}).

Definition read_loginAttempts : M AttemptRecord :=
  fun s => match loginAttempts s with
           | Some r => (Ok r, s)
           | None => (Throw ReferenceError, s)
           end.

Definition set_loginAttempts (r : AttemptRecord) (s : State) : State :=
  {| localStorage := localStorage s;
     loginAttempts := Some r;
     isLocked := isLocked s;
     clock := clock s;
     log := log s |}.

Definition assign_loginAttempts (r : AttemptRecord) : M unit :=
  fun s => match loginAttempts s with
           | Some _ => (Ok tt, set_loginAttempts r s)
           | None => (Throw ReferenceError, s)
           end.

Definition read_isLocked : M bool :=
  fun s => match isLocked s with
           | Some b => (Ok b, s)
           | None => (Throw ReferenceError, s)
           end.

Definition set_isLocked (b : bool) (s : State) : State :=
  {| localStorage := localStorage s;
     loginAttempts := loginAttempts s;
     isLocked := Some b;
     clock := clock s;
     log := log s |}.

Definition assign_isLocked (b : bool) : M unit :=
  fun s => match isLocked s with
           | Some _ => (Ok tt, set_isLocked b s)
           | None => (Throw ReferenceError, s)
           end.

(** The typed view of a value read from storage.  A value that is not an
    attempt record leaves the model: the code goes on with it by the
    coercions of JavaScript, which are not embedded. *)
Definition as_record (j : json) : M AttemptRecord :=
  fun s => match record_of_json j with
           | Some r => (Ok r, s)
           | None => (Unmodelled, s)
           end.

(** The environment moves the clock between two events and while a
    handler waits for the provider. *)
Definition at_time (t : Z) (s : State) : State :=
  {| localStorage := localStorage s;
     loginAttempts := loginAttempts s;
     isLocked := isLocked s;
     clock := t;
     log := log s |}.

(** The answer of the provider to one call: the time it took and, when
    the promise is rejected, the error. *)
Record Reply : Type := { delay : Z; failure : option AuthError }.

(** [await] of a provider promise. *)
Definition await (r : Reply) : M unit :=
  fun s =>
    let s' := at_time (clock s + delay r) s in
    match failure r with
    | None => (Ok tt, s')
    | Some err => (Throw (Rejected err), s')
    end.

(** The fields of the login form as [FormData.get] returns them; [None]
    for a field the form does not have. *)
Record FormData : Type := {
  form_email : option string;
  form_password : option string;
  form_remember : option string
}.

(* ================================================================= *)
(** ** The login component ([main.js]) *)

(** *** UI helpers: the calls are recorded, the DOM is a collaborator *)

Definition showMessage (text type : string) : M unit :=
  emit (ShowMessage text type).

Definition clearMessages : M unit := emit ClearMessages.

Definition showFieldError (fieldName text : string) : M unit :=
  emit (ShowFieldError fieldName text).

Definition setLoading (loading : bool) (buttonId : string) : M unit :=
  emit (SetLoading loading buttonId).

(** *** Error translation *)

(** [error.code] and [error.message] of a caught value.  A native error
    has no [code]; its [message] is a non-empty text chosen by the
    engine, for which the name of the error stands here. *)
Definition error_code (e : exn) : option string :=
  match e with
  | Rejected err => code err
  | _ => None
  end.

Definition error_message (e : exn) : option string :=
  match e with
  | Rejected err => message err
  | SyntaxError => Some "SyntaxError"
  | ReferenceError => Some "ReferenceError"
  end.

(** [a || b] on a string that may be missing. *)
Definition or_else (a : option string) (b : string) : string :=
  match a with
  | Some s => if truthy s then s else b
  | None => b
  end.

Definition code_is (c : option string) (k : string) : bool :=
  match c with
  | Some s => String.eqb s k
  | None => false
  end.

(** The [switch (error.code)] of [handleLoginError]. *)
Definition loginErrorMessage (c : option string) (m : option string) : string :=
  if code_is c "auth/user-not-found" then
    "No account found with this email address."
  else if code_is c "auth/wrong-password" then
    "Incorrect password. Please try again."
  else if code_is c "auth/invalid-email" then
    "Please enter a valid email address."
  else if code_is c "auth/user-disabled" then
    "This account has been disabled. Please contact support."
  else if code_is c "auth/too-many-requests" then
    "Too many failed attempts. Please try again later."
  else if code_is c "auth/network-request-failed" then
    "Network error. Please check your connection and try again."
  else if code_is c "auth/popup-closed-by-user" then
    "Sign-in was cancelled. Please try again."
  else if code_is c "auth/popup-blocked" then
    "Pop-up was blocked. Please allow pop-ups and try again."
  else
    or_else m "An unexpected error occurred. Please try again.".

Definition handleLoginError (e : exn) : M unit :=
  emit (ConsoleError "Login error:" e) ;;
  showMessage (loginErrorMessage (error_code e) (error_message e)) "error".

(** The codes with a canned sentence. *)
Definition known_codes : list string :=
  ["auth/user-not-found"; "auth/wrong-password"; "auth/invalid-email";
   "auth/user-disabled"; "auth/too-many-requests";
   "auth/network-request-failed"; "auth/popup-closed-by-user";
   "auth/popup-blocked"].

(** A code that has no canned sentence (or no code at all). *)
Definition unknown_code (c : option string) : Prop :=
  forall k, c = Some k -> ~ In k known_codes.

(** *** Attempt tracking *)

Definition getLoginAttempts : M json :=
  attempts <- getItem ;;
  match attempts with
  | Some a =>
      if truthy a then
        match JSON_parse a with
        | Some v => ret v
        | None => throw SyntaxError
        end
      else
        now <- Date_now ;; ret (json_of_record {| count := 0; timestamp := now |})
  | None =>
      now <- Date_now ;; ret (json_of_record {| count := 0; timestamp := now |})
  end.

Section Component.

Variable cfg : Config.

Definition lockoutText (remainingTime : Z) : string :=
  "Account temporarily locked due to too many failed attempts. Try again in "
  ++ string_of_Z remainingTime ++ " minutes.".

Definition remainingMinutes (now : Z) (r : AttemptRecord) : Z :=
  ceil_div (lockoutDuration cfg - (now - timestamp r)) 60000.

Definition showLockoutMessage : M unit :=
  now <- Date_now ;;
  r <- read_loginAttempts ;;
  showMessage (lockoutText (remainingMinutes now r)) "error" ;;
  emit DisableForm.

Definition incrementLoginAttempts : M unit :=
  if negb (enableRateLimiting cfg) then ret tt
  else
    r <- read_loginAttempts ;;
    assign_loginAttempts {| count := count r + 1; timestamp := timestamp r |} ;;
    now <- Date_now ;;
    r1 <- read_loginAttempts ;;
    assign_loginAttempts {| count := count r1; timestamp := now |} ;;
    r2 <- read_loginAttempts ;;
    setStorage (Some (JSON_stringify r2)) ;;
    r3 <- read_loginAttempts ;;
    if maxLoginAttempts cfg <=? count r3 then
      assign_isLocked true ;;
      showLockoutMessage
    else ret tt.

Definition resetLoginAttempts : M unit :=
  now <- Date_now ;;
  assign_loginAttempts {| count := 0; timestamp := now |} ;;
  setStorage None ;;
  assign_isLocked false.

Definition checkLockout : M bool :=
  if negb (enableRateLimiting cfg) then ret false
  else
    j <- getLoginAttempts ;;
    attempts <- as_record j ;;
    if maxLoginAttempts cfg <=? count attempts then
      now <- Date_now ;;
      let timeSinceLockout := now - timestamp attempts in
      if timeSinceLockout <? lockoutDuration cfg then ret true
      else
        (* Lockout period has expired *)
        resetLoginAttempts ;;
        ret false
    else ret false.

(** *** Form validation *)

Definition truthy_opt (o : option string) : bool :=
  match o with Some s => truthy s | None => false end.

Definition length_opt (o : option string) : Z :=
  match o with Some s => Z.of_nat (String.length s) | None => 0 end.

Definition isValidEmail_opt (o : option string) : bool :=
  match o with Some s => isValidEmail s | None => false end.

Definition passwordLengthText : string :=
  "Password must be at least " ++ string_of_Z (minPasswordLength cfg)
  ++ " characters".

Definition validateForm (email password : option string) : M bool :=
  let isValid := true in
  isValid <-
    (if negb (truthy_opt email) then
       showFieldError "email" "Email is required" ;; ret false
     else if negb (isValidEmail_opt email) then
       showFieldError "email" "Please enter a valid email address" ;; ret false
     else ret isValid) ;;
  isValid <-
    (if negb (truthy_opt password) then
       showFieldError "password" "Password is required" ;; ret false
     else if length_opt password <? minPasswordLength cfg then
       showFieldError "password" passwordLengthText ;; ret false
     else ret isValid) ;;
  ret isValid.

(** *** Handlers *)

Definition redirect : M unit := emit (SetTimeout "logged.html" 1500).

Definition handleLogin (form : FormData) (persistenceReply signInReply : Reply)
  : M unit :=
  emit PreventDefault ;;
  locked <- read_isLocked ;;
  if locked then showLockoutMessage
  else
    let email := option_map trim (form_email form) in
    let password := form_password form in
    let rememberMe :=
      match form_remember form with
      | Some v => String.eqb v "on"
      | None => false
      end in
    valid <- validateForm email password ;;
    if negb valid then ret tt
    else
      setLoading true "login-btn" ;;
      clearMessages ;;
      try_catch_finally
        (emit (SetPersistence rememberMe) ;;
         await persistenceReply ;;
         emit (SignInWithEmailAndPassword email password) ;;
         await signInReply ;;
         resetLoginAttempts ;;
         showMessage "Login successful! Redirecting..." "success" ;;
         redirect)
        (fun e => handleLoginError e ;; incrementLoginAttempts)
        (setLoading false "login-btn").

Definition handleGoogleLogin (popupReply : Reply) : M unit :=
  locked <- read_isLocked ;;
  if locked then showLockoutMessage
  else
    setLoading true "google-login-btn" ;;
    clearMessages ;;
    try_catch_finally
      (emit (SignInWithPopup ["email"; "profile"]) ;;
       await popupReply ;;
       resetLoginAttempts ;;
       showMessage "Google login successful! Redirecting..." "success" ;;
       redirect)
      (fun e => handleLoginError e ;; incrementLoginAttempts)
      (setLoading false "google-login-btn").

Definition setupUI : M unit :=
  locked <- read_isLocked ;;
  if locked then showLockoutMessage else ret tt.

(** *** Module evaluation

    [let loginAttempts = getLoginAttempts();] then
    [let isLocked = checkLockout();]: each binding is initialised once
    its initialiser has returned. *)
Definition module_body : M unit :=
  j <- getLoginAttempts ;;
  r <- as_record j ;;
  (fun s => (Ok tt, set_loginAttempts r s)) ;;
  b <- checkLockout ;;
  (fun s => (Ok tt, set_isLocked b s)).

(** Loading the page at time [t] with [stored] under the storage key. *)
Definition load (stored : option string) (t : Z) : result unit * State :=
  module_body {| localStorage := stored;
                 loginAttempts := None;
                 isLocked := None;
                 clock := t;
                 log := [] |}.

End Component.

(** *** Observations on a run *)

(** The events a computation adds to the log. *)
Definition new_events (before after : State) : list Event :=
  skipn (List.length (log before)) (log after).

Definition is_provider_call (e : Event) : bool :=
  match e with
  | SetPersistence _ | SignInWithEmailAndPassword _ _ | SignInWithPopup _ => true
  | _ => false
  end.

Definition is_field_error (e : Event) : bool :=
  match e with ShowFieldError _ _ => true | _ => false end.

(** The state of the loading indicator of a button after the events of a
    log, [init] being its state before them. *)
Fixpoint loading_state (buttonId : string) (init : bool) (l : list Event) : bool :=
  match l with
  | [] => init
  | SetLoading b id :: l' =>
      loading_state buttonId (if String.eqb id buttonId then b else init) l'
  | _ :: l' => loading_state buttonId init l'
  end.

(** *** Auxiliary notions of the proofs *)

(** The state a page is in when its storage holds [stored]. *)
Definition stored_state (stored : option string) (t : Z) : State :=
  {| localStorage := stored; loginAttempts := None; isLocked := None;
     clock := t; log := [] |}.

(** The log of [s] with the events [l] added. *)
Definition add_log (l : list Event) (s : State) : State :=
  {| localStorage := localStorage s;
     loginAttempts := loginAttempts s;
     isLocked := isLocked s;
     clock := clock s;
     log := log s ++ l |}.

(** The outcome of [validateForm], in the words of the specification:
    the e-mail is present and well formed, the password is present and
    long enough. *)
Definition form_valid (cfg : Config) (email password : option string) : bool :=
  truthy_opt email && isValidEmail_opt email &&
  truthy_opt password && (minPasswordLength cfg <=? length_opt password).

Definition email_errors (email : option string) : list Event :=
  if negb (truthy_opt email) then
    [ShowFieldError "email" "Email is required"]
  else if negb (isValidEmail_opt email) then
    [ShowFieldError "email" "Please enter a valid email address"]
  else [].

Definition password_errors (cfg : Config) (password : option string) : list Event :=
  if negb (truthy_opt password) then
    [ShowFieldError "password" "Password is required"]
  else if length_opt password <? minPasswordLength cfg then
    [ShowFieldError "password" (passwordLengthText cfg)]
  else [].

Definition field_errors (cfg : Config) (email password : option string) : list Event :=
  email_errors email ++ password_errors cfg password.

(** The email and the password a submission is validated with. *)
Definition submitted_email (form : FormData) : option string :=
  option_map trim (form_email form).

Definition is_set_loading (e : Event) : bool :=
  match e with SetLoading _ _ => true | _ => false end.

(** What the tracker holds: the stored text and the two bindings. *)
Definition tracker (s : State) : option string * option AttemptRecord * option bool :=
  (localStorage s, loginAttempts s, isLocked s).

(** A failure recorded at time [t]. *)
Definition fail_at (cfg : Config) (t : Z) (s : State) : State :=
  snd (incrementLoginAttempts cfg (at_time t s)).

(** A computation that stays within the model and only adds to the log. *)
Definition tame {A} (m : M A) : Prop :=
  forall s, fst (m s) <> Unmodelled /\ exists l, log (snd (m s)) = (log s ++ l)%list.

(** A submission that is not cut short: a field error is rendered or the
    provider is called. *)
Definition goes_on (e : Event) : bool := is_field_error e || is_provider_call e.

(** The [try] block and the [catch] clause of [handleLogin]. *)
Definition login_try (form : FormData) (p1 p2 : Reply) : M unit :=
  emit (SetPersistence
          match form_remember form with
          | Some v => String.eqb v "on"
          | None => false
          end) ;;
  await p1 ;;
  emit (SignInWithEmailAndPassword (submitted_email form) (form_password form)) ;;
  await p2 ;;
  resetLoginAttempts ;;
  showMessage "Login successful! Redirecting..." "success" ;;
  redirect.

Definition login_catch (cfg : Config) (e : exn) : M unit :=
  handleLoginError e ;; incrementLoginAttempts cfg.

(** Provider answers and a form used in the scenarios. *)
Definition accepted (d : Z) : Reply := {| delay := d; failure := None |}.

Definition rejected (d : Z) (err : AuthError) : Reply :=
  {| delay := d; failure := Some err |}.

Definition wrong_password : AuthError :=
  {| code := Some "auth/wrong-password";
     message := Some "Firebase: Error (auth/wrong-password)." |}.

Definition popup_closed : AuthError :=
  {| code := Some "auth/popup-closed-by-user";
     message := Some "Firebase: Error (auth/popup-closed-by-user)." |}.

Definition popup_blocked : AuthError :=
  {| code := Some "auth/popup-blocked";
     message := Some "Firebase: Error (auth/popup-blocked)." |}.

Definition sample_form : FormData :=
  {| form_email := Some "a@b.co";
     form_password := Some "secret1";
     form_remember := None |}.

(** A submission at time [t] that the provider rejects at once. *)
Definition submit_wrong (t : Z) (s : State) : State :=
  snd (handleLogin CONFIG sample_form (accepted 0) (rejected 0 wrong_password)
         (at_time t s)).

(** A click on the Google button at time [t]; the user closes the pop-up
    [d] milliseconds later. *)
Definition cancel_popup (t d : Z) (s : State) : State :=
  snd (handleGoogleLogin CONFIG (rejected d popup_closed) (at_time t s)).

(** The page is loaded at time 0 with nothing stored; five submissions
    are rejected at times 1 to 5; the page is still open at time 1000000,
    after the lockout of 900000 ms has run out. *)
Definition stale_lockout : State :=
  at_time 1000000
    (submit_wrong 5 (submit_wrong 4 (submit_wrong 3 (submit_wrong 2
       (submit_wrong 1 (snd (load CONFIG None 0))))))).

(** A decimal numeral that does not start with the digit 0. *)
Definition leading_nonzero (d : uint) : bool :=
  match d with
  | Nil | D0 _ => false
  | _ => true
  end.

(** A character that can follow a number. *)
Definition ends_number (c : ascii) : Prop :=
  uint_of_char c (Some Nil) = None /\
  Ascii.eqb c "." = false /\ is_exp_mark c = false.

Arguments JSON_stringify : simpl never.
Arguments string_of_Z : simpl never.
Arguments lockoutText : simpl never.
Arguments remainingMinutes : simpl never.
Arguments passwordLengthText : simpl never.
Arguments isValidEmail : simpl never.
Arguments trim : simpl never.
Arguments validateForm : simpl never.
Arguments incrementLoginAttempts : simpl never.
Arguments checkLockout : simpl never.

(* ================================================================= *)
(** ** The rest of the login component *)

(** *** Real-time validation ([validateField], [clearFieldError]) *)

(** What these two functions do to the page. *)
Inductive FieldCall : Type :=
| ClearFieldError (fieldName : string)
| FieldError (fieldName text : string).

(** The [name], [id] and [value] of an input element. *)
Record Input : Type := {
  input_name : string;
  input_id : string;
  input_value : string
}.

(** [clearFieldError(input)]; the field is [input.name || input.id]. *)
Definition clearFieldError (input : Input) : list FieldCall :=
  [ClearFieldError
     (if truthy (input_name input) then input_name input else input_id input)].

Section Blur.

Variable cfg : Config.

Definition validateField (input : Input) : list FieldCall :=
  let value := trim (input_value input) in
  let fieldName := input_name input in
  clearFieldError input ++
  (if String.eqb fieldName "email" && truthy value then
     if negb (isValidEmail value) then
       [FieldError "email" "Please enter a valid email address"]
     else []
   else []) ++
  (if String.eqb fieldName "password" && truthy value then
     if Z.of_nat (String.length value) <? minPasswordLength cfg then
       [FieldError "password" (passwordLengthText cfg)]
     else []
   else []).

End Blur.

Definition is_field_call_error (c : FieldCall) : bool :=
  match c with FieldError _ _ => true | _ => false end.

(** *** [togglePasswordVisibility] *)

(** The [type] of the password input and the [className] of the icon of
    the toggle. *)
Record PasswordView : Type := { input_type : string; icon_class : string }.

Definition togglePasswordVisibility (v : PasswordView) : PasswordView :=
  if String.eqb (input_type v) "password" then
    {| input_type := "text"; icon_class := "fas fa-eye-slash" |}
  else
    {| input_type := "password"; icon_class := "fas fa-eye" |}.

(** The icon shows what a click would do next. *)
Definition view_coherent (v : PasswordView) : Prop :=
  (input_type v = "password" /\ icon_class v = "fas fa-eye") \/
  (input_type v = "text" /\ icon_class v = "fas fa-eye-slash").

(** *** States of a page that has been loaded *)

(** The stored item holds the record [r], or nothing is stored and no
    failure is counted. *)
Definition stored_agrees (s : State) (r : AttemptRecord) : Prop :=
  match localStorage s with
  | Some a =>
      if truthy a then JSON_parse a = Some (json_of_record r)
      else count r = 0
  | None => count r = 0
  end.

(** Both bindings are initialised, the flag is set exactly when the count
    has reached the maximum, and the storage agrees with the record. *)
Definition consistent (cfg : Config) (s : State) : Prop :=
  exists r,
    loginAttempts s = Some r /\
    isLocked s = Some (maxLoginAttempts cfg <=? count r) /\
    stored_agrees s r.

(** The stored items over which the page is followed: no item, the empty
    string, or a JSON text of an object with the two members [count] and
    [timestamp], in this order, both written as integers.  Every text the
    program stores is one of them.  Over a JSON value of another shape
    (a number, an object without these members, ...) the module goes on
    by coercions that are not embedded, and nothing is stated. *)
Definition record_item (stored : option string) : bool :=
  match stored with
  | Some a =>
      if truthy a then
        match JSON_parse a with
        | Some j => match record_of_json j with Some _ => true | None => false end
        | None => false
        end
      else true
  | None => true
  end.

(** The states of a page: the module has been evaluated over such an
    item without an exception, and then the handlers run, each at some
    time [t]. *)
Inductive reachable (cfg : Config) : State -> Prop :=
| R_load stored t s :
    record_item stored = true ->
    load cfg stored t = (Ok tt, s) -> reachable cfg s
| R_setupUI s t :
    reachable cfg s -> reachable cfg (snd (setupUI cfg (at_time t s)))
| R_handleLogin s t form p1 p2 :
    reachable cfg s ->
    reachable cfg (snd (handleLogin cfg form p1 p2 (at_time t s)))
| R_handleGoogleLogin s t p :
    reachable cfg s ->
    reachable cfg (snd (handleGoogleLogin cfg p (at_time t s))).

(** A computation that only adds events that satisfy [P] to the log. *)
Definition emits {A} (P : Event -> Prop) (m : M A) : Prop :=
  forall s, exists l, log (snd (m s)) = (log s ++ l)%list /\ Forall P l.

(** A password sign-in is only asked for with the credentials of the
    form, the e-mail trimmed, and only when they passed [validateForm];
    the other events are unconstrained. *)
Definition checked_sign_in (cfg : Config) (form : FormData) (e : Event) : Prop :=
  match e with
  | SignInWithEmailAndPassword email password =>
      email = submitted_email form /\ password = form_password form /\
      form_valid cfg email password = true
  | _ => True
  end.

(** An event that is not a password sign-in. *)
Definition not_sign_in (e : Event) : Prop :=
  match e with
  | SignInWithEmailAndPassword _ _ => False
  | _ => True
  end.

(** The number of characters of [s] equal to [c]. *)
Fixpoint occurrences (c : ascii) (s : string) : nat :=
  match s with
  | EmptyString => 0
  | String a s' => (if Ascii.eqb a c then 1 else 0) + occurrences c s'
  end.

(** The [try] block and [catch] clause of [handleGoogleLogin]. *)
Definition google_try (p : Reply) : M unit :=
  emit (SignInWithPopup ["email"; "profile"]) ;;
  await p ;;
  resetLoginAttempts ;;
  showMessage "Google login successful! Redirecting..." "success" ;;
  redirect.

Arguments validateField : simpl never.

(** The errors rendered for the field [f]. *)
Definition errors_of (f : string) (l : list Event) : list Event :=
  filter (fun e => match e with
                   | ShowFieldError f' _ => String.eqb f' f
                   | _ => false
                   end) l.

(** A computation that stays within the model and takes consistent
    states to consistent states, whether it returns or throws. *)
Definition keeps (cfg : Config) {A} (m : M A) : Prop :=
  forall s, consistent cfg s ->
            fst (m s) <> Unmodelled /\ consistent cfg (snd (m s)).

(** A computation that moreover returns, on every consistent state. *)
Definition succeeds (cfg : Config) (m : M unit) : Prop :=
  forall s, consistent cfg s ->
            fst (m s) = Ok tt /\ consistent cfg (snd (m s)).

(** The configuration of [main.js] with rate limiting switched off. *)
Definition CONFIG_unlimited : Config := {|
  maxLoginAttempts := 5;
  lockoutDuration := 15 * 60 * 1000;
  minPasswordLength := 6;
  enableRateLimiting := false
|}.

(* ================================================================= *)
(** ** The signup component (the script of the signup page) *)

(** The signup page keeps no state of its own: a handler is a computation
    over the log of the calls it makes, which may throw. *)
Module Signup.

Inductive exn : Type :=
| TypeError
| Rejected (err : AuthError).

Inductive Event : Type :=
| PreventDefault
| ShowMessage (text type : string)
| ClearMessages
| ShowFieldError (fieldName text : string)
| SetLoading (loading : bool) (buttonId : string)
| ConsoleError (label : string) (e : exn)
| CreateUserWithEmailAndPassword (email password : option string)
| UpdateProfile (displayName : string)
| SignInWithPopup (scopes : list string)
| SetTimeout (href : string) (delay : Z).

Inductive result (A : Type) : Type :=
| Ok (a : A)
| Throw (e : exn).
Arguments Throw {A} e.

Definition M (A : Type) : Type := list Event -> result A * list Event.

Definition ret {A} (a : A) : M A := fun l => (Ok a, l).

Definition bind {A B} (m : M A) (f : A -> M B) : M B :=
  fun l =>
    match m l with
    | (Ok a, l') => f a l'
    | (Throw e, l') => (Throw e, l')
    end.

Definition throw {A} (e : exn) : M A := fun l => (Throw e, l).

Definition emit (e : Event) : M unit := fun l => (Ok tt, (l ++ [e])%list).

(** [try { body } catch (e) { handler } finally { final }] *)
Definition try_catch_finally (body : M unit) (handler : exn -> M unit)
    (final : M unit) : M unit :=
  fun l =>
    match body l with
    | (Ok _, l1) => final l1
    | (Throw e, l1) =>
        match handler e l1 with
        | (Ok _, l2) => final l2
        | (Throw e', l2) =>
            match final l2 with
            | (Ok _, l3) => (Throw e', l3)
            | r => r
            end
        end
    end.

(** [await] of a provider promise: [None] when it is fulfilled. *)
Definition await (failure : option AuthError) : M unit :=
  match failure with
  | None => ret tt
  | Some err => throw (Rejected err)
  end.

Declare Scope signup_scope.
Delimit Scope signup_scope with signup.
Notation "x <- m ;; k" := (bind m (fun x => k))
  (at level 61, m at next level, right associativity) : signup_scope.
Notation "m ;; k" := (bind m (fun _ => k))
  (at level 61, right associativity) : signup_scope.
Local Open Scope signup_scope.

Definition showMessage (text type : string) : M unit :=
  emit (ShowMessage text type).

Definition clearMessages : M unit := emit ClearMessages.

Definition showFieldError (fieldName text : string) : M unit :=
  emit (ShowFieldError fieldName text).

(** [setLoading(loading, buttonId = "signup-btn")] *)
Definition setLoading (loading : bool) (buttonId : string) : M unit :=
  emit (SetLoading loading buttonId).

Definition error_code (e : exn) : option string :=
  match e with
  | Rejected err => code err
  | TypeError => None
  end.

Definition error_message (e : exn) : option string :=
  match e with
  | Rejected err => message err
  | TypeError => Some "TypeError"
  end.

(** The [switch (error.code)] of [handleSignupError]. *)
Definition signupErrorMessage (c : option string) (m : option string) : string :=
  if code_is c "auth/email-already-in-use" then
    "An account already exists with this email address."
  else if code_is c "auth/invalid-email" then
    "Please enter a valid email address."
  else if code_is c "auth/weak-password" then
    "Password is too weak. Please use a stronger password."
  else if code_is c "auth/network-request-failed" then
    "Network error. Please check your connection and try again."
  else if code_is c "auth/popup-closed-by-user" then
    "Sign-up was cancelled. Please try again."
  else if code_is c "auth/popup-blocked" then
    "Pop-up was blocked. Please allow pop-ups and try again."
  else
    or_else m "An unexpected error occurred. Please try again.".

Definition handleSignupError (e : exn) : M unit :=
  emit (ConsoleError "Signup error:" e) ;;
  showMessage (signupErrorMessage (error_code e) (error_message e)) "error".

Definition known_codes : list string :=
  ["auth/email-already-in-use"; "auth/invalid-email"; "auth/weak-password";
   "auth/network-request-failed"; "auth/popup-closed-by-user";
   "auth/popup-blocked"].

(** [s.split("@")[0]]: what comes before the first [@], all of [s] when
    it has none. *)
Fixpoint before_at (s : string) : string :=
  match s with
  | EmptyString => EmptyString
  | String c s' => if Ascii.eqb c "@" then EmptyString else String c (before_at s')
  end.

(** [password !== confirmPassword] *)
Definition differ (password confirmPassword : option string) : bool :=
  match password, confirmPassword with
  | Some p, Some c => negb (String.eqb p c)
  | None, None => false
  | _, _ => true
  end.

Section Component.

(** [CONFIG.minPasswordLength], 6 in the script. *)
Variable minPasswordLength : Z.

Definition passwordLengthText : string :=
  "Password must be at least " ++ string_of_Z minPasswordLength ++ " characters".

Definition validateSignupForm (email password confirmPassword : option string)
  : M bool :=
  let isValid := true in
  isValid <-
    (if negb (truthy_opt email) then
       showFieldError "email" "Email is required" ;; ret false
     else if negb (isValidEmail_opt email) then
       showFieldError "email" "Please enter a valid email address" ;; ret false
     else ret isValid) ;;
  isValid <-
    (if negb (truthy_opt password) then
       showFieldError "password" "Password is required" ;; ret false
     else if length_opt password <? minPasswordLength then
       showFieldError "password" passwordLengthText ;; ret false
     else ret isValid) ;;
  isValid <-
    (if negb (truthy_opt confirmPassword) then
       showFieldError "confirm-password" "Please confirm your password" ;; ret false
     else if differ password confirmPassword then
       showFieldError "confirm-password" "Passwords do not match" ;; ret false
     else ret isValid) ;;
  ret isValid.

Definition redirect : M unit := emit (SetTimeout "logged.html" 1500).

(** The fields of the signup form, as [FormData.get] returns them. *)
Record FormData : Type := {
  form_email : option string;
  form_password : option string;
  form_confirm : option string
}.

Definition handleSignup (form : FormData) (createReply updateReply : option AuthError)
  : M unit :=
  emit PreventDefault ;;
  let email := option_map trim (form_email form) in
  let password := form_password form in
  let confirmPassword := form_confirm form in
  valid <- validateSignupForm email password confirmPassword ;;
  if negb valid then ret tt
  else
    setLoading true "signup-btn" ;;
    clearMessages ;;
    try_catch_finally
      (emit (CreateUserWithEmailAndPassword email password) ;;
       await createReply ;;
       displayName <-
         match email with
         | Some e => ret (before_at e)
         | None => throw TypeError
         end ;;
       emit (UpdateProfile displayName) ;;
       await updateReply ;;
       showMessage "Account created successfully! Redirecting..." "success" ;;
       redirect)
      handleSignupError
      (setLoading false "signup-btn").

Definition handleGoogleSignup (popupReply : option AuthError) : M unit :=
  setLoading true "google-signup-btn" ;;
  clearMessages ;;
  try_catch_finally
    (emit (SignInWithPopup ["email"; "profile"]) ;;
     await popupReply ;;
     showMessage "Account created with Google! Redirecting..." "success" ;;
     redirect)
    handleSignupError
    (setLoading false "google-signup-btn").

End Component.

(** *** Auxiliary notions of the proofs *)

(** The three conditions of [validateSignupForm]. *)
Definition form_valid (minPasswordLength : Z)
    (email password confirmPassword : option string) : bool :=
  truthy_opt email && isValidEmail_opt email &&
  truthy_opt password && (minPasswordLength <=? length_opt password) &&
  truthy_opt confirmPassword && negb (differ password confirmPassword).

Definition field_errors (minPasswordLength : Z)
    (email password confirmPassword : option string) : list Event :=
  (if negb (truthy_opt email) then
     [ShowFieldError "email" "Email is required"]
   else if negb (isValidEmail_opt email) then
     [ShowFieldError "email" "Please enter a valid email address"]
   else []) ++
  (if negb (truthy_opt password) then
     [ShowFieldError "password" "Password is required"]
   else if length_opt password <? minPasswordLength then
     [ShowFieldError "password" (passwordLengthText minPasswordLength)]
   else []) ++
  (if negb (truthy_opt confirmPassword) then
     [ShowFieldError "confirm-password" "Please confirm your password"]
   else if differ password confirmPassword then
     [ShowFieldError "confirm-password" "Passwords do not match"]
   else []).

Definition is_provider_call (e : Event) : bool :=
  match e with
  | CreateUserWithEmailAndPassword _ _ | UpdateProfile _ | SignInWithPopup _ => true
  | _ => false
  end.

Definition unknown_code (c : option string) : Prop :=
  forall k, c = Some k -> ~ In k known_codes.

Arguments passwordLengthText : simpl never.
Arguments validateSignupForm : simpl never.

End Signup.

(* ================================================================= *)
(** * Properties *)

(** ** Regular expressions: the matcher decides the language *)

Lemma lang_nullable r : nullable r = true <-> lang r "".
Proof.
  split.
  - induction r; simpl; intros H; try discriminate.
    + constructor.
    + apply andb_true_iff in H as [H1 H2].
      change "" with ("" ++ ""). constructor; auto.
    + apply orb_true_iff in H as [H|H]; [apply L_alt_l | apply L_alt_r]; auto.
    + constructor.
  - intros H. remember "" as s eqn:E. induction H; simpl; auto; try discriminate.
    + destruct s1; [|discriminate]. simpl in E. subst.
      rewrite IHlang1, IHlang2; auto.
    + rewrite IHlang; auto.
    + rewrite IHlang; auto using orb_true_r.
Qed.

Lemma lang_eps_inv s : lang Eps s -> s = "".
Proof. inversion 1; reflexivity. Qed.

Lemma lang_deriv_sound c r : forall s, lang (deriv c r) s -> lang r (String c s).
Proof.
  induction r; simpl; intros s H.
  - inversion H.
  - inversion H.
  - destruct (p c) eqn:E.
    + apply lang_eps_inv in H. subst. now constructor.
    + inversion H.
  - inversion H as [| | | ? ? ? HL | ? ? ? HR | |]; subst.
    + inversion HL as [| | ? ? s1 s2 H1 H2 | | | |]; subst.
      change (String c (s1 ++ s2)) with (String c s1 ++ s2).
      constructor; auto.
    + destruct (nullable r1) eqn:N; [|inversion HR].
      change (String c s) with ("" ++ String c s).
      constructor; auto. now apply lang_nullable.
  - inversion H; subst; [apply L_alt_l | apply L_alt_r]; auto.
  - inversion H as [| | ? ? s1 s2 H1 H2 | | | |]; subst.
    change (String c (s1 ++ s2)) with (String c s1 ++ s2).
    constructor; auto.
Qed.

Lemma lang_deriv_complete c r w :
  lang r w -> forall u, w = String c u -> lang (deriv c r) u.
Proof.
  induction 1; intros u E; simpl; try discriminate.
  - injection E as -> <-. rewrite H. constructor.
  - destruct s1 as [|a s1'].
    + simpl in E. subst s2. apply L_alt_r.
      assert (N : nullable r1 = true) by now apply lang_nullable.
      rewrite N. now apply IHlang2.
    + simpl in E. injection E as -> <-. apply L_alt_l.
      constructor; auto.
  - apply L_alt_l; auto.
  - apply L_alt_r; auto.
  - destruct s1 as [|a s1'].
    + simpl in E. subst s2. now apply IHlang2.
    + simpl in E. injection E as -> <-. constructor; auto.
Qed.

Lemma regex_test_spec r s : regex_test r s = true <-> lang r s.
Proof.
  revert r. induction s as [|c s IH]; intros r; simpl.
  - apply lang_nullable.
  - rewrite IH. split.
    + apply lang_deriv_sound.
    + intros H. now apply lang_deriv_complete with (w := String c s).
Qed.

(** The words of [[p]+] are the non-empty strings of characters in [p]. *)
Lemma lang_star_class p s :
  lang (Star (Class p)) s <-> forall_chars p s = true.
Proof.
  split.
  - intros H. remember (Star (Class p)) as r eqn:E.
    induction H; try discriminate; auto.
    injection E as ->. inversion H as [| ? c Hc | | | | |]; subst. simpl.
    rewrite Hc. simpl. now apply IHlang2.
  - induction s as [|c s IH]; simpl; intros H.
    + constructor.
    + apply andb_true_iff in H as [H1 H2].
      change (String c s) with (String c "" ++ s).
      constructor; auto. now constructor.
Qed.

Lemma lang_plus_class p s :
  lang (Plus (Class p)) s <-> s <> "" /\ forall_chars p s = true.
Proof.
  unfold Plus. split.
  - intros H. inversion H as [| | ? ? s1 s2 H1 H2 | | | |]; subst.
    inversion H1 as [| ? c Hc | | | | |]; subst. simpl. split; [discriminate|].
    apply lang_star_class in H2. now rewrite Hc, H2.
  - intros [Hne H]. destruct s as [|c s]; [congruence|].
    simpl in H. apply andb_true_iff in H as [H1 H2].
    change (String c s) with (String c "" ++ s).
    constructor; [now constructor | now apply lang_star_class].
Qed.

Lemma lang_chr a s : lang (Chr a) s <-> s = String a "".
Proof.
  unfold Chr. split.
  - inversion 1 as [| ? c Hc | | | | |]; subst. apply Ascii.eqb_eq in Hc. now subst.
  - intros ->. constructor. apply Ascii.eqb_refl.
Qed.

Lemma lang_cat_inv r1 r2 s :
  lang (Cat r1 r2) s <-> exists s1 s2, s = s1 ++ s2 /\ lang r1 s1 /\ lang r2 s2.
Proof.
  split.
  - inversion 1; subst. eauto.
  - intros (s1 & s2 & -> & H1 & H2). now constructor.
Qed.

(** ** C6: the e-mail pattern *)

Lemma isValidEmail_iff s :
  isValidEmail s = true <->
  exists a b c,
    s = a ++ "@" ++ b ++ "." ++ c /\ plain_run a /\ plain_run b /\ plain_run c.
Proof.
  unfold isValidEmail, emailRegex. rewrite regex_test_spec.
  split.
  - intros H.
    apply lang_cat_inv in H as (a & r1 & -> & Ha & H).
    apply lang_cat_inv in H as (x & r2 & -> & Hx & H).
    apply lang_cat_inv in H as (b & r3 & -> & Hb & H).
    apply lang_cat_inv in H as (y & c & -> & Hy & Hc).
    apply lang_chr in Hx, Hy. subst x y.
    apply lang_plus_class in Ha, Hb, Hc.
    exists a, b, c. simpl. auto.
  - intros (a & b & c & -> & Ha & Hb & Hc).
    apply lang_plus_class in Ha, Hb, Hc.
    constructor; auto.
    change ("@" ++ b ++ "." ++ c) with (String "@" "" ++ (b ++ "." ++ c)).
    constructor; [now apply lang_chr|].
    constructor; auto.
    change ("." ++ c) with (String "." "" ++ c).
    constructor; [now apply lang_chr | auto].
Qed.

(** C6. [isValidEmail s] is true exactly when [s] is a non-empty run of
    characters that are neither white space nor [@], then [@], then such a
    run, then [.], then such a run; it accepts [a@b.co] and rejects [a@b]
    and [a b@c.com]. *)
Theorem C6_isValidEmail :
  (forall s,
      isValidEmail s = true <->
      exists a b c,
        s = a ++ "@" ++ b ++ "." ++ c /\
        plain_run a /\ plain_run b /\ plain_run c) /\
  isValidEmail "a@b.co" = true /\
  isValidEmail "a@b" = false /\
  isValidEmail "a b@c.com" = false.
Proof.
  split; [exact isValidEmail_iff|]. repeat split; reflexivity.
Qed.

(** ** JSON: the stored text of a record is read back as that record *)

Lemma nzhead_not_D0 u v : nzhead u <> D0 v.
Proof. induction u; simpl; auto; discriminate. Qed.

Lemma to_uint_leading_nonzero p : leading_nonzero (Pos.to_uint p) = true.
Proof.
  assert (U : unorm (Pos.to_uint p) = Pos.to_uint p).
  { rewrite <- DecimalPos.Unsigned.to_of.
    now rewrite DecimalPos.Unsigned.of_to. }
  pose proof (DecimalPos.Unsigned.to_uint_nonzero p) as NZ.
  pose proof (DecimalPos.Unsigned.to_uint_nonnil p) as NN.
  destruct (Pos.to_uint p) as [|d'| | | | | | | | |]; try reflexivity.
  - congruence.
  - exfalso. unfold unorm in U. simpl in U.
    destruct (nzhead d') eqn:E; try discriminate.
    + injection U as <-. now apply NZ.
    + now apply nzhead_not_D0 in E.
Qed.

Lemma Z_of_to_uint p : Z.of_uint (Pos.to_uint p) = Z.pos p.
Proof.
  unfold Z.of_uint. now rewrite DecimalPos.Unsigned.of_to.
Qed.

Lemma uint_of_char_none c d d' :
  uint_of_char c (Some d) = None -> uint_of_char c (Some d') = None.
Proof.
  destruct c as [[|] [|] [|] [|] [|] [|] [|] [|]]; simpl; congruence.
Qed.

Lemma lex_digits neg d : forall acc rest,
  lex (LInt neg acc) (NilEmpty.string_of_uint d ++ rest) =
  lex (LInt neg (revapp d acc)) rest.
Proof.
  induction d; intros acc rest; simpl; auto.
Qed.

Lemma lex_cons st c rest :
  lex st (String c rest) =
  match lex_step st c with
  | Some (ts, st') => prepend ts (lex st' rest)
  | None => None
  end.
Proof. reflexivity. Qed.

Lemma lex_end_number st t c rest :
  finish_number st = Some t ->
  match end_number st c with
  | Some (ts, st') => prepend ts (lex st' rest)
  | None => None
  end = option_map (cons t) (lex LStart (String c rest)).
Proof.
  intros F. rewrite lex_cons. unfold end_number, lex_step. rewrite F.
  destruct (start_step c) as [[ts st']|]; [|reflexivity].
  destruct ts, (lex st' rest); reflexivity.
Qed.

Lemma lex_int_end neg ds c rest :
  ends_number c ->
  lex (LInt neg ds) (String c rest) =
  option_map (cons (TScalar (JNum (signed neg (Z.of_uint (Decimal.rev ds))) 0)))
    (lex LStart (String c rest)).
Proof.
  intros (H1 & H2 & H3). rewrite lex_cons. unfold lex_step at 1.
  rewrite (@uint_of_char_none c Nil ds H1), H2, H3.
  now apply lex_end_number.
Qed.

Lemma lex_zero_end neg c rest :
  ends_number c ->
  lex (LZero neg) (String c rest) =
  option_map (cons (TScalar (JNum 0 0))) (lex LStart (String c rest)).
Proof.
  intros (H1 & H2 & H3). rewrite lex_cons. unfold lex_step at 1.
  rewrite H1, H2, H3.
  apply lex_end_number. now destruct neg.
Qed.

(** Evaluates the scanner step on a character that is known. *)
Ltac eval_lex_step :=
  rewrite lex_cons;
  match goal with
  | |- context [lex_step ?st ?c] =>
      let v := eval vm_compute in (lex_step st c) in
      change (lex_step st c) with v
  end;
  cbv beta iota; unfold prepend.

(** The digits of an integer, followed by a character that ends a
    number, are read as that integer. *)
Lemma lex_string_of_Z z c rest :
  ends_number c ->
  lex LStart (string_of_Z z ++ String c rest) =
  option_map (cons (TScalar (JNum z 0))) (lex LStart (String c rest)).
Proof.
  intros Hc. unfold string_of_Z.
  destruct z as [|p|p]; simpl Z.to_int; unfold NilZero.string_of_int.
  - simpl. now apply lex_zero_end.
  - pose proof (to_uint_leading_nonzero p) as L.
    pose proof (Z_of_to_uint p) as V.
    destruct (Pos.to_uint p) as [|d|d|d|d|d|d|d|d|d|d] eqn:E;
      try discriminate L;
      unfold NilZero.string_of_uint;
      cbn [NilEmpty.string_of_uint String.append];
      eval_lex_step;
      rewrite lex_digits, lex_int_end by assumption;
      match goal with
      | |- context [Decimal.rev (revapp d ?a)] =>
          match type of V with
          | Z.of_uint ?u = _ =>
              change (revapp d a) with (Decimal.rev u); rewrite rev_rev, V
          end
      end; reflexivity.
  - pose proof (to_uint_leading_nonzero p) as L.
    pose proof (Z_of_to_uint p) as V.
    destruct (Pos.to_uint p) as [|d|d|d|d|d|d|d|d|d|d] eqn:E;
      try discriminate L;
      unfold NilZero.string_of_uint;
      cbn [NilEmpty.string_of_uint String.append];
      do 2 eval_lex_step;
      rewrite lex_digits, lex_int_end by assumption;
      match goal with
      | |- context [Decimal.rev (revapp d ?a)] =>
          match type of V with
          | Z.of_uint ?u = _ =>
              change (revapp d a) with (Decimal.rev u); rewrite rev_rev, V
          end
      end; reflexivity.
Qed.

Lemma ends_number_comma : ends_number ",".
Proof. repeat split. Qed.

Lemma ends_number_rbrace : ends_number "}".
Proof. repeat split. Qed.

Lemma JSON_parse_stringify r :
  JSON_parse (JSON_stringify r) = Some (json_of_record r).
Proof.
  unfold JSON_parse, JSON_stringify, quoted.
  cbn [String.append].
  do 9 eval_lex_step.
  rewrite (lex_string_of_Z (count r) _ ends_number_comma).
  do 13 eval_lex_step.
  rewrite (lex_string_of_Z (timestamp r) _ ends_number_rbrace).
  eval_lex_step.
  reflexivity.
Qed.

Lemma record_of_json_of_record r : record_of_json (json_of_record r) = Some r.
Proof. destruct r; reflexivity. Qed.

(** ** The attempt tracker *)

Lemma getLoginAttempts_absent s :
  localStorage s = None ->
  getLoginAttempts s =
  (Ok (json_of_record {| count := 0; timestamp := clock s |}), s).
Proof. unfold getLoginAttempts, bind, getItem. now intros ->. Qed.

Lemma getLoginAttempts_empty s :
  localStorage s = Some "" ->
  getLoginAttempts s =
  (Ok (json_of_record {| count := 0; timestamp := clock s |}), s).
Proof. unfold getLoginAttempts, bind, getItem. now intros ->. Qed.

Lemma getLoginAttempts_parsed s a v :
  localStorage s = Some a -> a <> "" -> JSON_parse a = Some v ->
  getLoginAttempts s = (Ok v, s).
Proof.
  unfold getLoginAttempts, bind, getItem. intros -> Ha ->.
  destruct a; [congruence | reflexivity].
Qed.

Lemma getLoginAttempts_malformed s a :
  localStorage s = Some a -> a <> "" -> JSON_parse a = None ->
  getLoginAttempts s = (Throw SyntaxError, s).
Proof.
  unfold getLoginAttempts, bind, getItem. intros -> Ha ->.
  destruct a; [congruence | reflexivity].
Qed.

Lemma getLoginAttempts_stored s r :
  localStorage s = Some (JSON_stringify r) ->
  getLoginAttempts s = (Ok (json_of_record r), s).
Proof.
  intros H. apply getLoginAttempts_parsed with (a := JSON_stringify r); auto.
  - discriminate.
  - apply JSON_parse_stringify.
Qed.

(** C1, as the code has it.  For a missing item and for an empty string
    [getLoginAttempts] returns [{count: 0, timestamp: now}]; a text
    written by the program is read back as the record it holds; any other
    non-empty text goes through [JSON.parse] unguarded: its value is
    returned as it is, and a text that is not JSON makes the call throw a
    [SyntaxError].  The call never changes the state. *)
Theorem C1_getLoginAttempts s :
  (localStorage s = None \/ localStorage s = Some "" ->
   getLoginAttempts s =
   (Ok (json_of_record {| count := 0; timestamp := clock s |}), s)) /\
  (forall r, localStorage s = Some (JSON_stringify r) ->
             getLoginAttempts s = (Ok (json_of_record r), s)) /\
  (forall a v, localStorage s = Some a -> a <> "" -> JSON_parse a = Some v ->
               getLoginAttempts s = (Ok v, s)) /\
  (forall a, localStorage s = Some a -> a <> "" -> JSON_parse a = None ->
             getLoginAttempts s = (Throw SyntaxError, s)).
Proof.
  repeat split.
  - intros [H|H]; [now apply getLoginAttempts_absent
                  | now apply getLoginAttempts_empty].
  - intros r. apply getLoginAttempts_stored.
  - intros a v. apply getLoginAttempts_parsed.
  - intros a. apply getLoginAttempts_malformed.
Qed.

Lemma C1_getLoginAttempts_witness :
  getLoginAttempts (stored_state None 1000) =
    (Ok (json_of_record {| count := 0; timestamp := 1000 |}),
     stored_state None 1000) /\
  getLoginAttempts
    (stored_state (Some (JSON_stringify {| count := 3; timestamp := 7 |})) 1000) =
    (Ok (json_of_record {| count := 3; timestamp := 7 |}),
     stored_state (Some (JSON_stringify {| count := 3; timestamp := 7 |})) 1000) /\
  getLoginAttempts (stored_state (Some "[1]") 1000) =
    (Ok (JArr [JNum 1 0]), stored_state (Some "[1]") 1000) /\
  getLoginAttempts (stored_state (Some "{count:5}") 1000) =
    (Throw SyntaxError, stored_state (Some "{count:5}") 1000).
Proof.
  split; [|split; [|split]].
  - apply (proj1 (C1_getLoginAttempts (stored_state None 1000))).
    left. reflexivity.
  - apply (proj1 (proj2 (C1_getLoginAttempts
      (stored_state (Some (JSON_stringify {| count := 3; timestamp := 7 |})) 1000)))).
    reflexivity.
  - apply (proj1 (proj2 (proj2 (C1_getLoginAttempts (stored_state (Some "[1]") 1000)))))
      with (a := "[1]"); [reflexivity | discriminate | reflexivity].
  - apply (proj2 (proj2 (proj2 (C1_getLoginAttempts (stored_state (Some "{count:5}") 1000)))))
      with (a := "{count:5}"); [reflexivity | discriminate | reflexivity].
Defined.

(** C1 as it is stated fails: with the text [not json] under the key, the
    read does not return the default record, it throws. *)
Lemma C1_malformed_payload_throws :
  fst (getLoginAttempts (stored_state (Some "not json") 1000)) = Throw SyntaxError /\
  fst (getLoginAttempts (stored_state (Some "not json") 1000)) <>
    Ok (json_of_record {| count := 0; timestamp := 1000 |}).
Proof. split; [reflexivity | discriminate]. Qed.

(** Unfolds the primitive operations of the state monad and the UI
    helpers, and puts the logs in the form [l ++ events]. *)
Ltac unfold_ops :=
  unfold showLockoutMessage, showMessage, clearMessages, showFieldError,
    setLoading, redirect, handleLoginError, resetLoginAttempts,
    bind, ret, throw, emit, Date_now, getItem, setStorage,
    read_loginAttempts, assign_loginAttempts, read_isLocked, assign_isLocked,
    set_loginAttempts, set_isLocked, at_time, await, add_log in *.

Ltac run :=
  repeat (progress (unfold_ops; simpl)); rewrite <- ?List.app_assoc; simpl.

Lemma incrementLoginAttempts_disabled cfg s :
  enableRateLimiting cfg = false -> incrementLoginAttempts cfg s = (Ok tt, s).
Proof. unfold incrementLoginAttempts. now intros ->. Qed.

Lemma incrementLoginAttempts_enabled cfg s r b :
  enableRateLimiting cfg = true ->
  loginAttempts s = Some r -> isLocked s = Some b ->
  let r' := {| count := count r + 1; timestamp := clock s |} in
  incrementLoginAttempts cfg s =
  (Ok tt,
   if maxLoginAttempts cfg <=? count r + 1 then
     {| localStorage := Some (JSON_stringify r');
        loginAttempts := Some r';
        isLocked := Some true;
        clock := clock s;
        log := log s ++
               [ShowMessage (lockoutText (remainingMinutes cfg (clock s) r')) "error";
                DisableForm] |}
   else
     {| localStorage := Some (JSON_stringify r');
        loginAttempts := Some r';
        isLocked := Some b;
        clock := clock s;
        log := log s |}).
Proof.
  intros He Hr Hb. destruct s as [st la il ck lg]. simpl in *. subst.
  unfold incrementLoginAttempts. rewrite He. run.
  destruct (maxLoginAttempts cfg <=? count r + 1); run; reflexivity.
Qed.

Lemma resetLoginAttempts_initialised s r b :
  loginAttempts s = Some r -> isLocked s = Some b ->
  resetLoginAttempts s =
  (Ok tt, {| localStorage := None;
             loginAttempts := Some {| count := 0; timestamp := clock s |};
             isLocked := Some false;
             clock := clock s;
             log := log s |}).
Proof.
  intros Hr Hb. destruct s as [st la il ck lg]. simpl in *. subst. reflexivity.
Qed.

(** During the evaluation of [let isLocked = checkLockout()] the binding
    [isLocked] is not initialised: the record is reset and the item
    removed, then the assignment [isLocked = false] throws. *)
Lemma resetLoginAttempts_uninitialised s r :
  loginAttempts s = Some r -> isLocked s = None ->
  resetLoginAttempts s =
  (Throw ReferenceError,
   {| localStorage := None;
      loginAttempts := Some {| count := 0; timestamp := clock s |};
      isLocked := None;
      clock := clock s;
      log := log s |}).
Proof.
  intros Hr Hb. destruct s as [st la il ck lg]. simpl in *. subst. reflexivity.
Qed.

Lemma checkLockout_disabled cfg s :
  enableRateLimiting cfg = false -> checkLockout cfg s = (Ok false, s).
Proof. unfold checkLockout. now intros ->. Qed.

Lemma checkLockout_stored cfg s r :
  enableRateLimiting cfg = true ->
  localStorage s = Some (JSON_stringify r) ->
  checkLockout cfg s =
  if maxLoginAttempts cfg <=? count r then
    if clock s - timestamp r <? lockoutDuration cfg then (Ok true, s)
    else match resetLoginAttempts s with
         | (Ok _, s') => (Ok false, s')
         | (Throw e, s') => (Throw e, s')
         | (Unmodelled, s') => (Unmodelled, s')
         end
  else (Ok false, s).
Proof.
  intros He Hs. unfold checkLockout. rewrite He. simpl.
  unfold bind at 1. rewrite (@getLoginAttempts_stored s r Hs).
  unfold bind at 1, as_record. rewrite record_of_json_of_record.
  cbn [count timestamp].
  destruct (maxLoginAttempts cfg <=? count r); [|reflexivity].
  unfold bind at 1, Date_now.
  destruct (clock s - timestamp r <? lockoutDuration cfg); [reflexivity|].
  unfold bind, ret. destruct (resetLoginAttempts s) as [[| |] s']; reflexivity.
Qed.

Lemma checkLockout_absent cfg s :
  localStorage s = None ->
  0 < maxLoginAttempts cfg ->
  checkLockout cfg s = (Ok false, s).
Proof.
  intros Hs Hm. unfold checkLockout.
  destruct (enableRateLimiting cfg); [|reflexivity]. simpl.
  unfold bind at 1. rewrite (@getLoginAttempts_absent s Hs).
  unfold bind at 1, as_record. rewrite record_of_json_of_record.
  cbn [count].
  destruct (maxLoginAttempts cfg <=? 0) eqn:E; [|reflexivity].
  apply Z.leb_le in E. lia.
Qed.

(** With both bindings initialised [checkLockout] does what C2 says. *)
Lemma checkLockout_initialised cfg s r r0 b :
  enableRateLimiting cfg = true ->
  localStorage s = Some (JSON_stringify r) ->
  loginAttempts s = Some r0 -> isLocked s = Some b ->
  checkLockout cfg s =
  if (maxLoginAttempts cfg <=? count r) &&
     (clock s - timestamp r <? lockoutDuration cfg)
  then (Ok true, s)
  else if maxLoginAttempts cfg <=? count r then
    (Ok false, {| localStorage := None;
                  loginAttempts := Some {| count := 0; timestamp := clock s |};
                  isLocked := Some false;
                  clock := clock s;
                  log := log s |})
  else (Ok false, s).
Proof.
  intros He Hs Hr Hb. rewrite (@checkLockout_stored cfg s r He Hs).
  rewrite (@resetLoginAttempts_initialised s r0 b Hr Hb).
  destruct (maxLoginAttempts cfg <=? count r); simpl; [|reflexivity].
  destruct (clock s - timestamp r <? lockoutDuration cfg); reflexivity.
Qed.

(** With [isLocked] not yet initialised, the expired branch throws. *)
Lemma checkLockout_expired_uninitialised cfg s r r0 :
  enableRateLimiting cfg = true ->
  localStorage s = Some (JSON_stringify r) ->
  loginAttempts s = Some r0 -> isLocked s = None ->
  maxLoginAttempts cfg <= count r ->
  lockoutDuration cfg <= clock s - timestamp r ->
  checkLockout cfg s =
  (Throw ReferenceError,
   {| localStorage := None;
      loginAttempts := Some {| count := 0; timestamp := clock s |};
      isLocked := None;
      clock := clock s;
      log := log s |}).
Proof.
  intros He Hs Hr Hb Hc Ht. rewrite (@checkLockout_stored cfg s r He Hs).
  rewrite (@resetLoginAttempts_uninitialised s r0 Hr Hb).
  apply Z.leb_le in Hc. apply Z.ltb_ge in Ht. now rewrite Hc, Ht.
Qed.

(** Loading the page over a lockout that has expired. *)
Lemma load_expired cfg r t :
  enableRateLimiting cfg = true ->
  maxLoginAttempts cfg <= count r ->
  lockoutDuration cfg <= t - timestamp r ->
  load cfg (Some (JSON_stringify r)) t =
  (Throw ReferenceError,
   {| localStorage := None;
      loginAttempts := Some {| count := 0; timestamp := t |};
      isLocked := None;
      clock := t;
      log := [] |}).
Proof.
  intros He Hc Ht. unfold load, module_body.
  unfold bind at 1. rewrite getLoginAttempts_stored with (r := r) by reflexivity.
  unfold bind at 1, as_record. rewrite record_of_json_of_record.
  unfold bind at 1. cbn beta iota.
  unfold bind at 1.
  rewrite checkLockout_expired_uninitialised with (r := r) (r0 := r);
    auto.
Qed.

(** C2, at the only call of [checkLockout] in the program (the
    initialiser of [isLocked], at page load).  The page is loaded at time
    900000 over the stored record [{count: 5, timestamp: 0}]: the lockout
    has expired, the record is reset and the item removed, but the call
    does not return [false]: the assignment to [isLocked] made by
    [resetLoginAttempts] throws a [ReferenceError], the binding being
    still uninitialised, and the module stops there. *)
Theorem C2_checkLockout_throws_at_load :
  load CONFIG (Some (JSON_stringify {| count := 5; timestamp := 0 |})) 900000 =
  (Throw ReferenceError,
   {| localStorage := None;
      loginAttempts := Some {| count := 0; timestamp := 900000 |};
      isLocked := None;
      clock := 900000;
      log := [] |}).
Proof.
  apply (@load_expired CONFIG {| count := 5; timestamp := 0 |} 900000);
    [reflexivity | simpl; lia | simpl; lia].
Qed.

(** ** C4: recording a failure *)

Lemma load_absent t :
  load CONFIG None t =
  (Ok tt, {| localStorage := None;
             loginAttempts := Some {| count := 0; timestamp := t |};
             isLocked := Some false;
             clock := t;
             log := [] |}).
Proof. reflexivity. Qed.

Lemma load_absent_tracker t :
  loginAttempts (snd (load CONFIG None t)) =
    Some {| count := 0; timestamp := t |} /\
  isLocked (snd (load CONFIG None t)) = Some false.
Proof. rewrite load_absent. split; reflexivity. Qed.

Lemma fail_at_enabled cfg t s r b :
  enableRateLimiting cfg = true ->
  loginAttempts s = Some r -> isLocked s = Some b ->
  let r' := {| count := count r + 1; timestamp := t |} in
  localStorage (fail_at cfg t s) = Some (JSON_stringify r') /\
  loginAttempts (fail_at cfg t s) = Some r' /\
  isLocked (fail_at cfg t s) =
    Some (if maxLoginAttempts cfg <=? count r + 1 then true else b) /\
  clock (fail_at cfg t s) = t.
Proof.
  intros He Hr Hb r'. unfold fail_at.
  rewrite (@incrementLoginAttempts_enabled cfg (at_time t s) r b He Hr Hb).
  cbn [snd at_time clock]. fold r'.
  destruct (maxLoginAttempts cfg <=? count r + 1); repeat split.
Qed.

Lemma fail_at_step cfg t s c ts b c' b' :
  enableRateLimiting cfg = true ->
  loginAttempts s = Some {| count := c; timestamp := ts |} ->
  isLocked s = Some b ->
  c' = c + 1 ->
  b' = (if maxLoginAttempts cfg <=? c' then true else b) ->
  localStorage (fail_at cfg t s) =
    Some (JSON_stringify {| count := c'; timestamp := t |}) /\
  loginAttempts (fail_at cfg t s) = Some {| count := c'; timestamp := t |} /\
  isLocked (fail_at cfg t s) = Some b'.
Proof.
  intros He Hr Hb -> ->.
  destruct (@fail_at_enabled cfg t s _ b He Hr Hb) as (A & B & C & _).
  auto.
Qed.

Lemma checkLockout_within_window cfg s r :
  enableRateLimiting cfg = true ->
  localStorage s = Some (JSON_stringify r) ->
  maxLoginAttempts cfg <= count r ->
  clock s - timestamp r < lockoutDuration cfg ->
  checkLockout cfg s = (Ok true, s).
Proof.
  intros He Hs Hc Ht. rewrite (@checkLockout_stored cfg s r He Hs).
  apply Z.leb_le in Hc. apply Z.ltb_lt in Ht. now rewrite Hc, Ht.
Qed.

Lemma locked_within_window cfg s r t :
  enableRateLimiting cfg = true ->
  localStorage s = Some (JSON_stringify r) ->
  maxLoginAttempts cfg <= count r ->
  t - timestamp r < lockoutDuration cfg ->
  fst (checkLockout cfg (at_time t s)) = Ok true.
Proof.
  intros He Hs Hc Ht.
  now rewrite (@checkLockout_within_window cfg (at_time t s) r He Hs Hc Ht).
Qed.

(** C4.  [incrementLoginAttempts] does nothing when rate limiting is
    disabled; otherwise it adds exactly one to the count, sets the time
    stamp to the current time and stores the record.  From an absent
    record and with [maxLoginAttempts = 5], five calls in a row leave the
    tracker locked (the flag is set and [checkLockout] answers [true]
    within the lockout window); a sixth leaves the count at 6, still
    locked. *)
Theorem C4_incrementLoginAttempts :
  (forall cfg s,
      enableRateLimiting cfg = false ->
      incrementLoginAttempts cfg s = (Ok tt, s)) /\
  (forall cfg s r b,
      enableRateLimiting cfg = true ->
      loginAttempts s = Some r -> isLocked s = Some b ->
      let r' := {| count := count r + 1; timestamp := clock s |} in
      fst (incrementLoginAttempts cfg s) = Ok tt /\
      loginAttempts (snd (incrementLoginAttempts cfg s)) = Some r' /\
      localStorage (snd (incrementLoginAttempts cfg s)) =
        Some (JSON_stringify r')) /\
  (forall t0 t1 t2 t3 t4 t5 t6 t,
      let s0 := snd (load CONFIG None t0) in
      let s5 :=
        fail_at CONFIG t5 (fail_at CONFIG t4 (fail_at CONFIG t3
          (fail_at CONFIG t2 (fail_at CONFIG t1 s0)))) in
      let s6 := fail_at CONFIG t6 s5 in
      loginAttempts s5 = Some {| count := 5; timestamp := t5 |} /\
      isLocked s5 = Some true /\
      (t - t5 < lockoutDuration CONFIG ->
       fst (checkLockout CONFIG (at_time t s5)) = Ok true) /\
      loginAttempts s6 = Some {| count := 6; timestamp := t6 |} /\
      isLocked s6 = Some true /\
      (t - t6 < lockoutDuration CONFIG ->
       fst (checkLockout CONFIG (at_time t s6)) = Ok true)).
Proof.
  split; [exact incrementLoginAttempts_disabled|]. split.
  - intros cfg s r b He Hr Hb r'.
    rewrite (@incrementLoginAttempts_enabled cfg s r b He Hr Hb). fold r'.
    destruct (maxLoginAttempts cfg <=? count r + 1); repeat split.
  - intros t0 t1 t2 t3 t4 t5 t6 t. cbv zeta.
    assert (E : enableRateLimiting CONFIG = true) by reflexivity.
    destruct (load_absent_tracker t0) as [A0 B0].
    set (s0 := snd (load CONFIG None t0)) in *. clearbody s0.
    destruct (@fail_at_step CONFIG t1 s0 _ _ _ 1 false E A0 B0 eq_refl eq_refl)
      as (_ & A1 & B1).
    set (s1 := fail_at CONFIG t1 s0) in *. clearbody s1.
    destruct (@fail_at_step CONFIG t2 s1 _ _ _ 2 false E A1 B1 eq_refl eq_refl)
      as (_ & A2 & B2).
    set (s2 := fail_at CONFIG t2 s1) in *. clearbody s2.
    destruct (@fail_at_step CONFIG t3 s2 _ _ _ 3 false E A2 B2 eq_refl eq_refl)
      as (_ & A3 & B3).
    set (s3 := fail_at CONFIG t3 s2) in *. clearbody s3.
    destruct (@fail_at_step CONFIG t4 s3 _ _ _ 4 false E A3 B3 eq_refl eq_refl)
      as (_ & A4 & B4).
    set (s4 := fail_at CONFIG t4 s3) in *. clearbody s4.
    destruct (@fail_at_step CONFIG t5 s4 _ _ _ 5 true E A4 B4 eq_refl eq_refl)
      as (S5 & A5 & B5).
    set (s5 := fail_at CONFIG t5 s4) in *. clearbody s5.
    destruct (@fail_at_step CONFIG t6 s5 _ _ _ 6 true E A5 B5 eq_refl eq_refl)
      as (S6 & A6 & B6).
    set (s6 := fail_at CONFIG t6 s5) in *. clearbody s6.
    split; [exact A5|]. split; [exact B5|]. split; [|split; [exact A6|]].
    2: split; [exact B6|].
    + intros Ht. apply locked_within_window with (r := {| count := 5; timestamp := t5 |});
        [exact E | exact S5 | cbv; discriminate | exact Ht].
    + intros Ht. apply locked_within_window with (r := {| count := 6; timestamp := t6 |});
        [exact E | exact S6 | cbv; discriminate | exact Ht].
Qed.

Lemma C4_incrementLoginAttempts_witness :
  incrementLoginAttempts
    {| maxLoginAttempts := 5; lockoutDuration := 900000;
       minPasswordLength := 6; enableRateLimiting := false |}
    (stored_state None 0) = (Ok tt, stored_state None 0) /\
  loginAttempts (snd (incrementLoginAttempts CONFIG (snd (load CONFIG None 7)))) =
    Some {| count := 0 + 1; timestamp := 7 |} /\
  fst (checkLockout CONFIG
         (at_time 10
            (fail_at CONFIG 5 (fail_at CONFIG 4 (fail_at CONFIG 3
               (fail_at CONFIG 2 (fail_at CONFIG 1 (snd (load CONFIG None 0))))))))) =
    Ok true.
Proof.
  split; [|split].
  - apply (proj1 C4_incrementLoginAttempts). reflexivity.
  - apply (proj1 (proj2 C4_incrementLoginAttempts) CONFIG
             (snd (load CONFIG None 7)) {| count := 0; timestamp := 7 |} false);
      reflexivity.
  - apply (proj2 (proj2 C4_incrementLoginAttempts) 0 1 2 3 4 5 6 10).
    reflexivity.
Defined.

(** ** Validation *)

Lemma skipn_length_app {A} (l l' : list A) : skipn (List.length l) (l ++ l') = l'.
Proof. induction l; simpl; auto. Qed.

Lemma new_events_add_log l s : new_events s (add_log l s) = l.
Proof. unfold new_events, add_log. simpl. apply skipn_length_app. Qed.

Lemma validateForm_spec cfg email password s :
  validateForm cfg email password s =
  (Ok (form_valid cfg email password),
   add_log (field_errors cfg email password) s).
Proof.
  unfold validateForm, form_valid, field_errors, email_errors, password_errors.
  rewrite (Z.leb_antisym (length_opt password)).
  destruct (truthy_opt email), (isValidEmail_opt email),
    (truthy_opt password), (length_opt password <? minPasswordLength cfg);
    run; rewrite ?List.app_nil_r; destruct s; reflexivity.
Qed.

Lemma field_errors_nil cfg email password :
  form_valid cfg email password = true -> field_errors cfg email password = [].
Proof.
  unfold form_valid, field_errors, email_errors, password_errors.
  rewrite (Z.leb_antisym (length_opt password)).
  destruct (truthy_opt email), (isValidEmail_opt email),
    (truthy_opt password), (length_opt password <? minPasswordLength cfg);
    simpl; congruence.
Qed.

Lemma field_errors_cons cfg email password :
  form_valid cfg email password = false ->
  field_errors cfg email password <> [].
Proof.
  unfold form_valid, field_errors, email_errors, password_errors.
  rewrite (Z.leb_antisym (length_opt password)).
  destruct (truthy_opt email), (isValidEmail_opt email),
    (truthy_opt password), (length_opt password <? minPasswordLength cfg);
    simpl; congruence.
Qed.

Lemma field_errors_are_field_errors cfg email password :
  forallb is_field_error (field_errors cfg email password) = true.
Proof.
  unfold field_errors, email_errors, password_errors.
  destruct (truthy_opt email), (isValidEmail_opt email),
    (truthy_opt password), (length_opt password <? minPasswordLength cfg);
    reflexivity.
Qed.

Lemma truthy_true_iff s : truthy s = true <-> s <> "".
Proof. destruct s; simpl; split; congruence. Qed.

Lemma form_valid_iff cfg email password :
  form_valid cfg (Some email) (Some password) = true <->
  email <> "" /\ isValidEmail email = true /\
  password <> "" /\ minPasswordLength cfg <= Z.of_nat (String.length password).
Proof.
  unfold form_valid. cbn [truthy_opt isValidEmail_opt length_opt].
  rewrite !andb_true_iff, !truthy_true_iff, Z.leb_le. tauto.
Qed.

(** C5.  [validateForm] reports the form valid exactly when the e-mail is
    not empty and passes [isValidEmail] and the password is not empty and
    has at least [minPasswordLength] (6) characters; for [a@b.com] and
    [12345] it reports the password-length error and nothing else; the
    check only renders field errors: the stored item, the bindings and
    the clock are untouched and no provider call is made. *)
Theorem C5_validateForm :
  (forall cfg email password s,
      exists valid,
        fst (validateForm cfg (Some email) (Some password) s) = Ok valid /\
        (valid = true <->
         email <> "" /\ isValidEmail email = true /\
         password <> "" /\
         minPasswordLength cfg <= Z.of_nat (String.length password))) /\
  minPasswordLength CONFIG = 6 /\
  (forall s,
      validateForm CONFIG (Some "a@b.com") (Some "12345") s =
      (Ok false,
       add_log [ShowFieldError "password"
                  "Password must be at least 6 characters"] s)) /\
  (forall cfg email password s,
      exists errors,
        snd (validateForm cfg email password s) = add_log errors s /\
        forallb is_field_error errors = true /\
        existsb is_provider_call errors = false /\
        tracker (snd (validateForm cfg email password s)) = tracker s).
Proof.
  split; [|split; [reflexivity|split]].
  - intros cfg email password s. rewrite validateForm_spec. cbn [fst].
    eexists; split; [reflexivity|]. apply form_valid_iff.
  - intros s. rewrite validateForm_spec. reflexivity.
  - intros cfg email password s. rewrite validateForm_spec. cbn [snd].
    exists (field_errors cfg email password).
    split; [reflexivity|]. split; [apply field_errors_are_field_errors|].
    split; [|reflexivity].
    unfold field_errors, email_errors, password_errors.
    destruct (truthy_opt email), (isValidEmail_opt email),
      (truthy_opt password), (length_opt password <? minPasswordLength cfg);
      reflexivity.
Qed.

(** ** C7: error translation *)

Lemma loginErrorMessage_unknown c m :
  unknown_code c ->
  loginErrorMessage c m = or_else m "An unexpected error occurred. Please try again.".
Proof.
  intros U. destruct c as [k|]; [|reflexivity].
  specialize (U k eq_refl). unfold known_codes in U. simpl in U.
  unfold loginErrorMessage, code_is.
  repeat match goal with
         | |- context [String.eqb k ?x] =>
             let E := fresh "E" in
             destruct (String.eqb k x) eqn:E;
             [apply String.eqb_eq in E; exfalso; apply U; rewrite E; tauto|]
         end.
  reflexivity.
Qed.

(** C7.  Each of the eight known codes is translated to its canned
    sentence, whatever the fallback message is; any other code (or no
    code) yields the fallback message when there is one and it is not the
    empty string, and the generic sentence otherwise;
    [handleLoginError] never fails: it logs the error and shows the
    translated message. *)
Theorem C7_loginErrorMessage :
  (forall m,
      loginErrorMessage (Some "auth/user-not-found") m =
        "No account found with this email address." /\
      loginErrorMessage (Some "auth/wrong-password") m =
        "Incorrect password. Please try again." /\
      loginErrorMessage (Some "auth/invalid-email") m =
        "Please enter a valid email address." /\
      loginErrorMessage (Some "auth/user-disabled") m =
        "This account has been disabled. Please contact support." /\
      loginErrorMessage (Some "auth/too-many-requests") m =
        "Too many failed attempts. Please try again later." /\
      loginErrorMessage (Some "auth/network-request-failed") m =
        "Network error. Please check your connection and try again." /\
      loginErrorMessage (Some "auth/popup-closed-by-user") m =
        "Sign-in was cancelled. Please try again." /\
      loginErrorMessage (Some "auth/popup-blocked") m =
        "Pop-up was blocked. Please allow pop-ups and try again.") /\
  (forall c fallback,
      unknown_code c -> fallback <> "" ->
      loginErrorMessage c (Some fallback) = fallback) /\
  (forall c,
      unknown_code c ->
      loginErrorMessage c None =
        "An unexpected error occurred. Please try again." /\
      loginErrorMessage c (Some "") =
        "An unexpected error occurred. Please try again.") /\
  (forall e s,
      handleLoginError e s =
      (Ok tt,
       add_log [ConsoleError "Login error:" e;
                ShowMessage (loginErrorMessage (error_code e) (error_message e))
                  "error"] s)).
Proof.
  split; [|split; [|split]].
  - intros m. repeat split.
  - intros c fallback U Hf. rewrite loginErrorMessage_unknown by assumption.
    destruct fallback; [congruence | reflexivity].
  - intros c U. now rewrite !loginErrorMessage_unknown by assumption.
  - intros e s. run. reflexivity.
Qed.

Lemma unknown_code_xyz : unknown_code (Some "auth/unknown-code-xyz").
Proof.
  intros k [= <-]. unfold known_codes. simpl.
  intros H. repeat (destruct H as [H|H]; [discriminate H|]). exact H.
Qed.

Lemma C7_loginErrorMessage_witness :
  loginErrorMessage (Some "auth/unknown-code-xyz") (Some "oops") = "oops" /\
  loginErrorMessage (Some "auth/unknown-code-xyz") None =
    "An unexpected error occurred. Please try again.".
Proof.
  split.
  - apply (proj1 (proj2 C7_loginErrorMessage)).
    + exact unknown_code_xyz.
    + discriminate.
  - apply (proj1 (proj2 (proj2 C7_loginErrorMessage))).
    exact unknown_code_xyz.
Defined.

(** ** The login handler, branch by branch *)

Lemma handleLogin_locked cfg form p1 p2 s r :
  isLocked s = Some true -> loginAttempts s = Some r ->
  handleLogin cfg form p1 p2 s =
  (Ok tt,
   add_log [PreventDefault;
            ShowMessage (lockoutText (remainingMinutes cfg (clock s) r)) "error";
            DisableForm] s).
Proof.
  intros Hl Hr. destruct s as [st la il ck lg]. simpl in *. subst.
  unfold handleLogin. run. reflexivity.
Qed.

Lemma handleLogin_invalid cfg form p1 p2 s :
  isLocked s = Some false ->
  form_valid cfg (submitted_email form) (form_password form) = false ->
  handleLogin cfg form p1 p2 s =
  (Ok tt,
   add_log (PreventDefault ::
            field_errors cfg (submitted_email form) (form_password form)) s).
Proof.
  intros Hl Hv. destruct s as [st la il ck lg]. simpl in *. subst.
  unfold handleLogin. unfold bind at 1. unfold emit at 1. cbn [log localStorage loginAttempts isLocked clock].
  unfold bind at 1. unfold read_isLocked at 1. cbn [isLocked].
  unfold bind at 1. rewrite validateForm_spec. fold (submitted_email form).
  rewrite Hv. cbn [negb]. unfold ret, add_log. simpl.
  now rewrite <- List.app_assoc.
Qed.

Lemma handleLogin_valid cfg form p1 p2 s :
  isLocked s = Some false ->
  form_valid cfg (submitted_email form) (form_password form) = true ->
  handleLogin cfg form p1 p2 s =
  try_catch_finally (login_try form p1 p2) (login_catch cfg)
    (setLoading false "login-btn")
    (add_log [PreventDefault; SetLoading true "login-btn"; ClearMessages] s).
Proof.
  intros Hl Hv. destruct s as [st la il ck lg]. simpl in *. subst.
  unfold handleLogin. unfold bind at 1. unfold emit at 1. cbn [log localStorage loginAttempts isLocked clock].
  unfold bind at 1. unfold read_isLocked at 1. cbn [isLocked].
  unfold bind at 1. rewrite validateForm_spec. fold (submitted_email form).
  rewrite Hv, (field_errors_nil _ _ _ Hv). cbn [negb].
  unfold bind at 1. unfold setLoading at 1, emit at 1.
  unfold bind at 1. unfold clearMessages at 1, emit at 1.
  unfold add_log. simpl. rewrite <- !List.app_assoc. reflexivity.
Qed.

(** ** Computations that only add to the log *)

Create HintDb tame.

Lemma tame_ret {A} (a : A) : tame (ret a).
Proof. intros s. split; [discriminate|]. exists []. simpl. now rewrite List.app_nil_r. Qed.

Lemma tame_throw {A} e : tame (@throw A e).
Proof. intros s. split; [discriminate|]. exists []. simpl. now rewrite List.app_nil_r. Qed.

Lemma tame_emit e : tame (emit e).
Proof. intros s. split; [discriminate|]. now exists [e]. Qed.

Lemma tame_same_log {A} (m : M A) :
  (forall s, fst (m s) <> Unmodelled /\ log (snd (m s)) = log s) -> tame m.
Proof.
  intros H s. destruct (H s) as [H1 H2]. split; auto.
  exists []. now rewrite List.app_nil_r.
Qed.

Lemma tame_bind {A B} (m : M A) (f : A -> M B) :
  tame m -> (forall a, tame (f a)) -> tame (bind m f).
Proof.
  intros Hm Hf s. unfold bind.
  destruct (Hm s) as [N (l & L)].
  destruct (m s) as [[a|e|] s1]; simpl in *.
  - destruct (Hf a s1) as [N' (l' & L')]. split; auto.
    exists (l ++ l')%list. now rewrite L', L, List.app_assoc.
  - split; [discriminate | eauto].
  - congruence.
Qed.

Lemma tame_Date_now : tame Date_now.
Proof. apply tame_same_log. intros s. split; [discriminate | reflexivity]. Qed.

Lemma tame_setStorage v : tame (setStorage v).
Proof. apply tame_same_log. intros s. split; [discriminate | reflexivity]. Qed.

Lemma tame_read_loginAttempts : tame read_loginAttempts.
Proof.
  apply tame_same_log. intros s. unfold read_loginAttempts.
  destruct (loginAttempts s); split; simpl; congruence.
Qed.

Lemma tame_assign_loginAttempts r : tame (assign_loginAttempts r).
Proof.
  apply tame_same_log. intros s. unfold assign_loginAttempts.
  destruct (loginAttempts s); split; simpl; congruence.
Qed.

Lemma tame_read_isLocked : tame read_isLocked.
Proof.
  apply tame_same_log. intros s. unfold read_isLocked.
  destruct (isLocked s); split; simpl; congruence.
Qed.

Lemma tame_assign_isLocked b : tame (assign_isLocked b).
Proof.
  apply tame_same_log. intros s. unfold assign_isLocked.
  destruct (isLocked s); split; simpl; congruence.
Qed.

Lemma tame_await r : tame (await r).
Proof.
  apply tame_same_log. intros s. unfold await.
  destruct (failure r); split; simpl; congruence.
Qed.

Lemma tame_if {A} (b : bool) (m1 m2 : M A) :
  tame m1 -> tame m2 -> tame (if b then m1 else m2).
Proof. now destruct b. Qed.

Lemma tame_showMessage text type : tame (showMessage text type).
Proof. apply tame_emit. Qed.

Lemma tame_clearMessages : tame clearMessages.
Proof. apply tame_emit. Qed.

Lemma tame_setLoading b id : tame (setLoading b id).
Proof. apply tame_emit. Qed.

Lemma tame_redirect : tame redirect.
Proof. apply tame_emit. Qed.

#[local] Hint Resolve tame_ret tame_throw tame_emit tame_Date_now tame_setStorage
  tame_read_loginAttempts tame_assign_loginAttempts tame_read_isLocked
  tame_assign_isLocked tame_await tame_showMessage tame_clearMessages
  tame_setLoading tame_redirect : tame.

Ltac tame_tac :=
  repeat first
    [ solve [auto with tame]
    | apply tame_if
    | apply tame_bind; [|intros] ].

Lemma tame_showLockoutMessage cfg : tame (showLockoutMessage cfg).
Proof. unfold showLockoutMessage. tame_tac. Qed.

Lemma tame_incrementLoginAttempts cfg : tame (incrementLoginAttempts cfg).
Proof.
  pose proof (tame_showLockoutMessage cfg).
  unfold incrementLoginAttempts. tame_tac.
Qed.

Lemma tame_resetLoginAttempts : tame resetLoginAttempts.
Proof. unfold resetLoginAttempts. tame_tac. Qed.

Lemma tame_handleLoginError e : tame (handleLoginError e).
Proof. unfold handleLoginError. tame_tac. Qed.

#[local] Hint Resolve tame_showLockoutMessage tame_incrementLoginAttempts
  tame_resetLoginAttempts tame_handleLoginError : tame.

(** [finally]: whatever the body and the handler do, the last thing a
    [try] statement does is its [finally] clause. *)
Lemma try_catch_finally_last body handler x :
  tame body -> (forall e, tame (handler e)) ->
  forall s, exists l,
    log (snd (try_catch_finally body handler (emit x) s)) =
    (log s ++ l ++ [x])%list.
Proof.
  intros Hb Hh s. unfold try_catch_finally.
  destruct (Hb s) as [N (l & L)].
  destruct (body s) as [[[]|e|] s1]; simpl in *.
  - exists l. now rewrite L, List.app_assoc.
  - destruct (Hh e s1) as [N' (l' & L')].
    destruct (handler e s1) as [[[]|e'|] s2]; simpl in *.
    + exists (l ++ l')%list. now rewrite L', L, !List.app_assoc.
    + exists (l ++ l')%list. now rewrite L', L, !List.app_assoc.
    + congruence.
  - congruence.
Qed.

(** The log of a [try] statement starts with what its body logs. *)
Lemma try_catch_finally_extends body handler final :
  tame body -> (forall e, tame (handler e)) -> tame final ->
  forall s, exists l,
    log (snd (try_catch_finally body handler final s)) =
    (log (snd (body s)) ++ l)%list.
Proof.
  intros Hb Hh Hf s. unfold try_catch_finally.
  destruct (Hb s) as [N _].
  destruct (body s) as [[[]|e|] s1]; simpl in *.
  - destruct (Hf s1) as [_ (l & L)]. eauto.
  - destruct (Hh e s1) as [N' (l' & L')].
    destruct (handler e s1) as [[[]|e'|] s2]; simpl in *.
    + destruct (Hf s2) as [_ (l & L)]. exists (l' ++ l)%list.
      now rewrite L, L', List.app_assoc.
    + destruct (Hf s2) as [_ (l & L)]. exists (l' ++ l)%list.
      destruct (final s2) as [[[]|e''|] s3]; simpl in *;
        now rewrite L, L', List.app_assoc.
    + congruence.
  - congruence.
Qed.

Lemma try_catch_finally_modelled body handler final :
  tame body -> (forall e, tame (handler e)) -> tame final ->
  forall s, fst (try_catch_finally body handler final s) <> Unmodelled.
Proof.
  intros Hb Hh Hf s. unfold try_catch_finally.
  destruct (Hb s) as [N _].
  destruct (body s) as [[[]|e|] s1]; simpl in *.
  - apply Hf.
  - destruct (Hh e s1) as [N' _].
    destruct (handler e s1) as [[[]|e'|] s2]; simpl in *.
    + apply Hf.
    + destruct (Hf s2) as [N'' _].
      destruct (final s2) as [[[]|e''|] s3]; simpl in *; congruence.
    + congruence.
  - congruence.
Qed.

Lemma tame_login_try form p1 p2 : tame (login_try form p1 p2).
Proof. unfold login_try. tame_tac. Qed.

Lemma tame_login_catch cfg e : tame (login_catch cfg e).
Proof. unfold login_catch. tame_tac. Qed.

Lemma new_events_of_log s s' l :
  log s' = (log s ++ l)%list -> new_events s s' = l.
Proof. unfold new_events. intros ->. apply skipn_length_app. Qed.

Lemma loading_state_app id init l1 l2 :
  loading_state id init (l1 ++ l2) = loading_state id (loading_state id init l1) l2.
Proof.
  revert init. induction l1 as [|e l1 IH]; intros init; simpl; auto.
  destruct e; auto.
Qed.

Lemma loading_state_last id init l :
  loading_state id init (l ++ [SetLoading false id]) = false.
Proof. rewrite loading_state_app. simpl. now rewrite String.eqb_refl. Qed.

Lemma handleLogin_uninitialised cfg form p1 p2 s :
  isLocked s = None ->
  handleLogin cfg form p1 p2 s = (Throw ReferenceError, add_log [PreventDefault] s).
Proof.
  intros Hl. destruct s as [st la il ck lg]. simpl in *. subst. reflexivity.
Qed.

Lemma handleLogin_locked_unset cfg form p1 p2 s :
  isLocked s = Some true -> loginAttempts s = None ->
  handleLogin cfg form p1 p2 s = (Throw ReferenceError, add_log [PreventDefault] s).
Proof.
  intros Hl Hr. destruct s as [st la il ck lg]. simpl in *. subst. reflexivity.
Qed.

Lemma field_errors_not_loading cfg email password :
  existsb is_set_loading (field_errors cfg email password) = false.
Proof.
  unfold field_errors, email_errors, password_errors.
  destruct (truthy_opt email), (isValidEmail_opt email),
    (truthy_opt password), (length_opt password <? minPasswordLength cfg);
    reflexivity.
Qed.

Lemma field_errors_not_provider cfg email password :
  existsb is_provider_call (field_errors cfg email password) = false.
Proof.
  unfold field_errors, email_errors, password_errors.
  destruct (truthy_opt email), (isValidEmail_opt email),
    (truthy_opt password), (length_opt password <? minPasswordLength cfg);
    reflexivity.
Qed.

Lemma field_errors_go_on cfg email password :
  form_valid cfg email password = false ->
  existsb goes_on (field_errors cfg email password) = true.
Proof.
  unfold form_valid, field_errors, email_errors, password_errors.
  rewrite (Z.leb_antisym (length_opt password)).
  destruct (truthy_opt email), (isValidEmail_opt email),
    (truthy_opt password), (length_opt password <? minPasswordLength cfg);
    simpl; congruence.
Qed.

(** The log of a submission that passes the gate and the validation. *)
Lemma handleLogin_valid_log cfg form p1 p2 s :
  isLocked s = Some false ->
  form_valid cfg (submitted_email form) (form_password form) = true ->
  exists l,
    new_events s (snd (handleLogin cfg form p1 p2 s)) =
    ([PreventDefault; SetLoading true "login-btn"; ClearMessages] ++ l ++
     [SetLoading false "login-btn"])%list.
Proof.
  intros Hl Hv. rewrite handleLogin_valid by assumption.
  destruct (@try_catch_finally_last (login_try form p1 p2) (login_catch cfg)
              (SetLoading false "login-btn")
              (tame_login_try form p1 p2) (tame_login_catch cfg)
              (add_log [PreventDefault; SetLoading true "login-btn"; ClearMessages] s))
    as (l & L).
  exists l. apply new_events_of_log. unfold setLoading. rewrite L.
  unfold add_log. simpl. now rewrite <- List.app_assoc.
Qed.

(** ** C8: an invalid form stops the submission *)

(** C8.  When the gate is passed ([isLocked] is false) and validation
    fails, [handleLogin] returns after rendering the field errors: it
    makes no provider call, and the stored item, the attempt record, the
    flag and the clock are as before. *)
Theorem C8_invalid_form_aborts cfg form p1 p2 s :
  isLocked s = Some false ->
  fst (validateForm cfg (submitted_email form) (form_password form) s) = Ok false ->
  let s' := snd (handleLogin cfg form p1 p2 s) in
  fst (handleLogin cfg form p1 p2 s) = Ok tt /\
  new_events s s' =
    PreventDefault :: field_errors cfg (submitted_email form) (form_password form) /\
  existsb is_field_error (new_events s s') = true /\
  existsb is_provider_call (new_events s s') = false /\
  tracker s' = tracker s /\ clock s' = clock s.
Proof.
  intros Hl Hv s'. rewrite validateForm_spec in Hv. injection Hv as Hv.
  unfold s'. rewrite handleLogin_invalid by assumption. cbn [fst snd].
  rewrite new_events_add_log.
  split; [reflexivity|]. split; [reflexivity|].
  split; [|split; [|split; reflexivity]].
  - cbn [existsb is_field_error orb].
    pose proof (field_errors_cons _ _ _ Hv) as NE.
    pose proof (field_errors_are_field_errors cfg (submitted_email form)
                  (form_password form)) as FE.
    destruct (field_errors cfg (submitted_email form) (form_password form));
      [congruence|]. simpl in *. apply andb_true_iff in FE as [-> _]. reflexivity.
  - cbn [existsb is_provider_call orb]. apply field_errors_not_provider.
Qed.

Lemma C8_invalid_form_aborts_witness :
  new_events (snd (load CONFIG None 0))
    (snd (handleLogin CONFIG
            {| form_email := Some "a@b.com"; form_password := Some "12345";
               form_remember := None |}
            (accepted 0) (accepted 0) (snd (load CONFIG None 0)))) =
  PreventDefault ::
  field_errors CONFIG
    (submitted_email {| form_email := Some "a@b.com"; form_password := Some "12345";
                        form_remember := None |})
    (Some "12345").
Proof.
  apply (@C8_invalid_form_aborts CONFIG
           {| form_email := Some "a@b.com"; form_password := Some "12345";
              form_remember := None |}
           (accepted 0) (accepted 0) (snd (load CONFIG None 0)));
    reflexivity.
Defined.

(** ** The lockout gate of [handleLogin] *)

(** The gate of [handleLogin] is the flag [isLocked], not a call of
    [checkLockout].  When the flag is true the handler renders the
    lockout message with the remaining minutes, disables the form and
    returns: no validation, no provider call, and the tracker is as
    before.  When the flag is false it goes on: it renders a field error
    or calls the provider. *)
Lemma handleLogin_gate cfg form p1 p2 s r :
  loginAttempts s = Some r ->
  (isLocked s = Some true ->
   handleLogin cfg form p1 p2 s =
     (Ok tt,
      add_log [PreventDefault;
               ShowMessage (lockoutText (remainingMinutes cfg (clock s) r)) "error";
               DisableForm] s) /\
   existsb goes_on (new_events s (snd (handleLogin cfg form p1 p2 s))) = false /\
   tracker (snd (handleLogin cfg form p1 p2 s)) = tracker s) /\
  (isLocked s = Some false ->
   existsb goes_on (new_events s (snd (handleLogin cfg form p1 p2 s))) = true).
Proof.
  intros Hr. split.
  - intros Hl. rewrite (@handleLogin_locked cfg form p1 p2 s r Hl Hr).
    cbn [snd]. rewrite new_events_add_log. repeat split.
  - intros Hl.
    destruct (form_valid cfg (submitted_email form) (form_password form)) eqn:Hv.
    + assert (T := tame_login_try form p1 p2).
      rewrite handleLogin_valid by assumption.
      destruct (@try_catch_finally_extends (login_try form p1 p2) (login_catch cfg)
                  (setLoading false "login-btn")
                  T (tame_login_catch cfg) (tame_setLoading false "login-btn")
                  (add_log [PreventDefault; SetLoading true "login-btn"; ClearMessages] s))
        as (l1 & L1).
      assert (B : exists l2,
                 log (snd (login_try form p1 p2
                        (add_log [PreventDefault; SetLoading true "login-btn";
                                  ClearMessages] s))) =
                 (log s ++ [PreventDefault; SetLoading true "login-btn"; ClearMessages;
                            SetPersistence
                              match form_remember form with
                              | Some v => String.eqb v "on"
                              | None => false
                              end] ++ l2)%list).
      { unfold login_try. unfold bind at 1. unfold emit at 1.
        match goal with
        | |- context [(?m ;; ?k) ?st] =>
            assert (Tk : tame (m ;; k)) by tame_tac;
            destruct (Tk st) as [_ (l2 & L2)]; exists l2; rewrite L2
        end.
        unfold add_log. simpl. rewrite <- !List.app_assoc. reflexivity. }
      destruct B as (l2 & L2). rewrite L2 in L1.
      rewrite (@new_events_of_log s _ _
                 (eq_trans L1 (eq_sym (List.app_assoc _ _ _)))).
      simpl. reflexivity.
    + rewrite handleLogin_invalid by assumption. cbn [snd].
      rewrite new_events_add_log. cbn [existsb goes_on is_field_error is_provider_call orb].
      now apply field_errors_go_on.
Qed.

(** ** C9: the loading indicator is released *)

(** C9.  Whenever [handleLogin] sets the loading indicator of the login
    button, the last thing it does is to clear it: on success, on a
    rejected provider call, and when the [catch] clause itself throws.
    The handler always completes within the model. *)
Theorem C9_loading_cleared cfg form p1 p2 s :
  let s' := snd (handleLogin cfg form p1 p2 s) in
  fst (handleLogin cfg form p1 p2 s) <> Unmodelled /\
  (In (SetLoading true "login-btn") (new_events s s') ->
   (exists l, new_events s s' = (l ++ [SetLoading false "login-btn"])%list) /\
   forall init, loading_state "login-btn" init (new_events s s') = false).
Proof.
  intros s'. unfold s'. clear s'.
  destruct (isLocked s) as [[|]|] eqn:Hl.
  - destruct (loginAttempts s) as [r|] eqn:Hr.
    + rewrite (@handleLogin_locked cfg form p1 p2 s r Hl Hr). cbn [fst snd].
      rewrite new_events_add_log. split; [discriminate|].
      simpl. intros [H|[H|[H|[]]]]; discriminate.
    + rewrite (@handleLogin_locked_unset cfg form p1 p2 s Hl Hr). cbn [fst snd].
      rewrite new_events_add_log. split; [discriminate|].
      simpl. intros [H|[]]; discriminate.
  - destruct (form_valid cfg (submitted_email form) (form_password form)) eqn:Hv.
    + destruct (@handleLogin_valid_log cfg form p1 p2 s Hl Hv) as (l & L).
      split.
      * rewrite handleLogin_valid by assumption.
        apply try_catch_finally_modelled;
          auto using tame_login_try, tame_login_catch, tame_setLoading.
      * intros _. rewrite L.
        change ([PreventDefault; SetLoading true "login-btn"; ClearMessages] ++
                l ++ [SetLoading false "login-btn"])%list
          with (([PreventDefault; SetLoading true "login-btn"; ClearMessages] ++ l)
                ++ [SetLoading false "login-btn"])%list
          || rewrite List.app_assoc.
        split; [eauto | intros init; apply loading_state_last].
    + rewrite handleLogin_invalid by assumption. cbn [fst snd].
      rewrite new_events_add_log. split; [discriminate|].
      intros [H|H]; [discriminate|].
      pose proof (field_errors_not_loading cfg (submitted_email form)
                    (form_password form)) as NL.
      assert (E : existsb is_set_loading
                    (field_errors cfg (submitted_email form) (form_password form)) = true).
      { apply existsb_exists. eexists; split; [exact H | reflexivity]. }
      congruence.
  - rewrite (@handleLogin_uninitialised cfg form p1 p2 s Hl). cbn [fst snd].
    rewrite new_events_add_log. split; [discriminate|].
    simpl. intros [H|[]]; discriminate.
Qed.

Lemma C9_loading_cleared_witness :
  loading_state "login-btn" true
    (new_events (snd (load CONFIG None 0))
       (snd (handleLogin CONFIG sample_form (accepted 0) (rejected 0 wrong_password)
               (snd (load CONFIG None 0))))) = false.
Proof.
  apply (proj2 (@C9_loading_cleared CONFIG sample_form (accepted 0)
                  (rejected 0 wrong_password) (snd (load CONFIG None 0)))).
  vm_compute. right. left. reflexivity.
Defined.

(** ** C10: a failed Google sign-in counts as a failed login *)

Lemma tracker_incrementLoginAttempts cfg s1 s2 :
  tracker s1 = tracker s2 -> clock s1 = clock s2 ->
  fst (incrementLoginAttempts cfg s1) = fst (incrementLoginAttempts cfg s2) /\
  tracker (snd (incrementLoginAttempts cfg s1)) =
  tracker (snd (incrementLoginAttempts cfg s2)) /\
  clock (snd (incrementLoginAttempts cfg s1)) =
  clock (snd (incrementLoginAttempts cfg s2)).
Proof.
  destruct s1 as [st1 la1 il1 ck1 lg1], s2 as [st2 la2 il2 ck2 lg2].
  unfold tracker. simpl. intros [= -> -> ->] ->.
  unfold incrementLoginAttempts.
  destruct (enableRateLimiting cfg); simpl; [|repeat split].
  destruct la2 as [r|]; [|repeat split]. run.
  destruct (maxLoginAttempts cfg <=? count r + 1); [|repeat split].
  destruct il2; repeat split.
Qed.

Lemma handleGoogleLogin_rejected cfg d err s :
  isLocked s = Some false ->
  let s' := snd (handleGoogleLogin cfg (rejected d err) s) in
  tracker s' =
    tracker (snd (incrementLoginAttempts cfg (at_time (clock s + d) s))) /\
  existsb is_provider_call (new_events s s') = true.
Proof.
  intros Hl s'. unfold s'. clear s'.
  destruct s as [st la il ck lg]. simpl in Hl. subst il.
  unfold handleGoogleLogin, try_catch_finally. run.
  match goal with
  | |- context [incrementLoginAttempts cfg ?x] =>
      destruct (@tracker_incrementLoginAttempts cfg x
                  {| localStorage := st; loginAttempts := la; isLocked := Some false;
                     clock := ck + d; log := lg |} eq_refl eq_refl) as (F & T & _);
      rewrite <- T; clear T;
      pose proof (tame_incrementLoginAttempts cfg x) as [N (l & L)];
      destruct (incrementLoginAttempts cfg x) as [[[]|e|] sx]
  end; simpl in *.
  - split; [reflexivity|].
    unfold new_events. simpl. rewrite L, <- !List.app_assoc.
    rewrite skipn_length_app. reflexivity.
  - split; [reflexivity|].
    unfold new_events. simpl. rewrite L, <- !List.app_assoc.
    rewrite skipn_length_app. reflexivity.
  - congruence.
Qed.

Lemma handleLogin_rejected cfg form d1 d2 err s :
  isLocked s = Some false ->
  form_valid cfg (submitted_email form) (form_password form) = true ->
  tracker (snd (handleLogin cfg form (accepted d1) (rejected d2 err) s)) =
  tracker (snd (incrementLoginAttempts cfg (at_time (clock s + d1 + d2) s))).
Proof.
  intros Hl Hv. rewrite handleLogin_valid by assumption.
  destruct s as [st la il ck lg]. simpl in Hl. subst il.
  unfold try_catch_finally, login_try, login_catch. run.
  match goal with
  | |- context [incrementLoginAttempts cfg ?x] =>
      destruct (@tracker_incrementLoginAttempts cfg x
                  {| localStorage := st; loginAttempts := la; isLocked := Some false;
                     clock := ck + d1 + d2; log := lg |} eq_refl eq_refl) as (F & T & _);
      rewrite <- T; clear T;
      destruct (incrementLoginAttempts cfg x) as [[[]|e|] sx]
  end; reflexivity.
Qed.

Lemma tracker_inv s1 s2 :
  tracker s1 = tracker s2 ->
  localStorage s1 = localStorage s2 /\
  loginAttempts s1 = loginAttempts s2 /\
  isLocked s1 = isLocked s2.
Proof. unfold tracker. intros [= -> -> ->]. auto. Qed.

Lemma cancel_popup_step t d s c ts c' b' :
  loginAttempts s = Some {| count := c; timestamp := ts |} ->
  isLocked s = Some false ->
  c' = c + 1 ->
  b' = (if maxLoginAttempts CONFIG <=? c' then true else false) ->
  localStorage (cancel_popup t d s) =
    Some (JSON_stringify {| count := c'; timestamp := t + d |}) /\
  loginAttempts (cancel_popup t d s) = Some {| count := c'; timestamp := t + d |} /\
  isLocked (cancel_popup t d s) = Some b'.
Proof.
  intros Hr Hl Hc Hb. unfold cancel_popup.
  destruct (@handleGoogleLogin_rejected CONFIG d popup_closed (at_time t s) Hl)
    as [T _].
  apply tracker_inv in T. destruct T as (T1 & T2 & T3).
  rewrite T1, T2, T3.
  change (snd (incrementLoginAttempts CONFIG
                 (at_time (clock (at_time t s) + d) (at_time t s))))
    with (fail_at CONFIG (t + d) s).
  now apply fail_at_step with (c := c) (ts := ts) (b := false).
Qed.

(** C10.  A Google sign-in that fails, whatever the error (a pop-up the
    user closed and a blocked pop-up included), calls the provider and
    then records a failure exactly as a rejected password login does: the
    count goes up by one and is stored.  Five pop-ups closed in a row,
    from an absent record, lock the tracker. *)
Theorem C10_google_failure_counts :
  (forall cfg d err s r,
      isLocked s = Some false -> loginAttempts s = Some r ->
      let s' := snd (handleGoogleLogin cfg (rejected d err) s) in
      existsb is_provider_call (new_events s s') = true /\
      (enableRateLimiting cfg = true ->
       loginAttempts s' =
         Some {| count := count r + 1; timestamp := clock s + d |} /\
       localStorage s' =
         Some (JSON_stringify {| count := count r + 1; timestamp := clock s + d |})) /\
      (forall form d1 d2 err',
          form_valid cfg (submitted_email form) (form_password form) = true ->
          d1 + d2 = d ->
          tracker s' =
          tracker (snd (handleLogin cfg form (accepted d1) (rejected d2 err') s)))) /\
  (forall t0 t1 d1 t2 d2 t3 d3 t4 d4 t5 d5 t,
      let s5 :=
        cancel_popup t5 d5 (cancel_popup t4 d4 (cancel_popup t3 d3
          (cancel_popup t2 d2 (cancel_popup t1 d1 (snd (load CONFIG None t0)))))) in
      loginAttempts s5 = Some {| count := 5; timestamp := t5 + d5 |} /\
      localStorage s5 =
        Some (JSON_stringify {| count := 5; timestamp := t5 + d5 |}) /\
      isLocked s5 = Some true /\
      (t - (t5 + d5) < lockoutDuration CONFIG ->
       fst (checkLockout CONFIG (at_time t s5)) = Ok true)).
Proof.
  split.
  - intros cfg d err s r Hl Hr s'.
    destruct (@handleGoogleLogin_rejected cfg d err s Hl) as [T P].
    fold s' in T, P. split; [exact P|]. split.
    + intros He. apply tracker_inv in T. destruct T as (T1 & T2 & _).
      rewrite T1, T2.
      destruct (@fail_at_enabled cfg (clock s + d) s r false He Hr Hl)
        as (A & B & _).
      split; [exact B | exact A].
    + intros form d1 d2 err' Hv Hd. rewrite T.
      rewrite handleLogin_rejected by assumption.
      now rewrite <- Hd, Z.add_assoc.
  - intros t0 t1 d1 t2 d2 t3 d3 t4 d4 t5 d5 t. cbv zeta.
    assert (E : enableRateLimiting CONFIG = true) by reflexivity.
    destruct (load_absent_tracker t0) as [A0 B0].
    set (s0 := snd (load CONFIG None t0)) in *. clearbody s0.
    destruct (@cancel_popup_step t1 d1 s0 _ _ 1 false A0 B0 eq_refl eq_refl)
      as (_ & A1 & B1).
    set (s1 := cancel_popup t1 d1 s0) in *. clearbody s1.
    destruct (@cancel_popup_step t2 d2 s1 _ _ 2 false A1 B1 eq_refl eq_refl)
      as (_ & A2 & B2).
    set (s2 := cancel_popup t2 d2 s1) in *. clearbody s2.
    destruct (@cancel_popup_step t3 d3 s2 _ _ 3 false A2 B2 eq_refl eq_refl)
      as (_ & A3 & B3).
    set (s3 := cancel_popup t3 d3 s2) in *. clearbody s3.
    destruct (@cancel_popup_step t4 d4 s3 _ _ 4 false A3 B3 eq_refl eq_refl)
      as (_ & A4 & B4).
    set (s4 := cancel_popup t4 d4 s3) in *. clearbody s4.
    destruct (@cancel_popup_step t5 d5 s4 _ _ 5 true A4 B4 eq_refl eq_refl)
      as (S5 & A5 & B5).
    set (s5 := cancel_popup t5 d5 s4) in *. clearbody s5.
    split; [exact A5|]. split; [exact S5|]. split; [exact B5|].
    intros Ht.
    apply locked_within_window with (r := {| count := 5; timestamp := t5 + d5 |});
      [exact E | exact S5 | cbv; discriminate | exact Ht].
Qed.

Lemma C10_google_failure_counts_witness :
  loginAttempts
    (snd (handleGoogleLogin CONFIG (rejected 3 popup_blocked)
            (snd (load CONFIG None 10)))) =
    Some {| count := 0 + 1; timestamp := 10 + 3 |} /\
  fst (checkLockout CONFIG
         (at_time 100
            (cancel_popup 5 1 (cancel_popup 4 1 (cancel_popup 3 1
               (cancel_popup 2 1 (cancel_popup 1 1 (snd (load CONFIG None 0))))))))) =
    Ok true.
Proof.
  split.
  - apply (proj1 (proj2 (proj1 C10_google_failure_counts CONFIG 3 popup_blocked
                           (snd (load CONFIG None 10))
                           {| count := 0; timestamp := 10 |} eq_refl eq_refl))).
    reflexivity.
  - apply (proj2 C10_google_failure_counts 0 1 1 2 1 3 1 4 1 5 1 100).
    reflexivity.
Defined.

(** ** C3: a lockout that has run out still closes the gate *)

Lemma submit_wrong_step t s c ts c' b' :
  loginAttempts s = Some {| count := c; timestamp := ts |} ->
  isLocked s = Some false ->
  c' = c + 1 ->
  b' = (if maxLoginAttempts CONFIG <=? c' then true else false) ->
  localStorage (submit_wrong t s) =
    Some (JSON_stringify {| count := c'; timestamp := t |}) /\
  loginAttempts (submit_wrong t s) = Some {| count := c'; timestamp := t |} /\
  isLocked (submit_wrong t s) = Some b'.
Proof.
  intros Hr Hl Hc Hb. unfold submit_wrong.
  pose proof (@handleLogin_rejected CONFIG sample_form 0 0 wrong_password
                (at_time t s) Hl eq_refl) as T.
  apply tracker_inv in T. destruct T as (T1 & T2 & T3).
  rewrite T1, T2, T3.
  cbn [clock at_time]. rewrite !Z.add_0_r.
  change (snd (incrementLoginAttempts CONFIG (at_time t (at_time t s))))
    with (fail_at CONFIG t s).
  now apply fail_at_step with (c := c) (ts := ts) (b := false).
Qed.

(** Five rejected submissions from a page loaded over nothing. *)
Lemma five_rejected_submissions t0 t1 t2 t3 t4 t5 :
  let s5 :=
    submit_wrong t5 (submit_wrong t4 (submit_wrong t3
      (submit_wrong t2 (submit_wrong t1 (snd (load CONFIG None t0)))))) in
  let r5 := {| count := 5; timestamp := t5 |} in
  localStorage s5 = Some (JSON_stringify r5) /\
  loginAttempts s5 = Some r5 /\
  isLocked s5 = Some true.
Proof.
  cbv zeta.
  destruct (load_absent_tracker t0) as [A0 B0].
  set (s0 := snd (load CONFIG None t0)) in *. clearbody s0.
  destruct (@submit_wrong_step t1 s0 _ _ 1 false A0 B0 eq_refl eq_refl)
    as (_ & A1 & B1).
  set (s1 := submit_wrong t1 s0) in *. clearbody s1.
  destruct (@submit_wrong_step t2 s1 _ _ 2 false A1 B1 eq_refl eq_refl)
    as (_ & A2 & B2).
  set (s2 := submit_wrong t2 s1) in *. clearbody s2.
  destruct (@submit_wrong_step t3 s2 _ _ 3 false A2 B2 eq_refl eq_refl)
    as (_ & A3 & B3).
  set (s3 := submit_wrong t3 s2) in *. clearbody s3.
  destruct (@submit_wrong_step t4 s3 _ _ 4 false A3 B3 eq_refl eq_refl)
    as (_ & A4 & B4).
  set (s4 := submit_wrong t4 s3) in *. clearbody s4.
  destruct (@submit_wrong_step t5 s4 _ _ 5 true A4 B4 eq_refl eq_refl)
    as (S5 & A5 & B5).
  set (s5 := submit_wrong t5 s4) in *. clearbody s5. auto.
Qed.

(** A page whose flag is set, once the window of the stored record has
    run out. *)
Lemma expired_lockout_blocks cfg t s r form p1 p2 :
  enableRateLimiting cfg = true ->
  0 < maxLoginAttempts cfg <= count r ->
  lockoutDuration cfg <= t - timestamp r ->
  localStorage s = Some (JSON_stringify r) ->
  loginAttempts s = Some r -> isLocked s = Some true ->
  fst (checkLockout cfg (at_time t s)) = Ok false /\
  handleLogin cfg form p1 p2 (at_time t s) =
    (Ok tt,
     add_log [PreventDefault;
              ShowMessage (lockoutText (remainingMinutes cfg t r)) "error";
              DisableForm] (at_time t s)) /\
  remainingMinutes cfg t r <= 0.
Proof.
  intros E [_ Hc] Ht S A B.
  split; [|split].
  - rewrite (@checkLockout_initialised cfg (at_time t s) r r true E S A B).
    cbn [clock at_time].
    apply Z.leb_le in Hc. apply Z.ltb_ge in Ht. rewrite Hc, Ht. reflexivity.
  - now apply handleLogin_locked.
  - unfold remainingMinutes, ceil_div.
    assert (0 <= (- (lockoutDuration cfg - (t - timestamp r))) / 60000)
      by (apply Z.div_pos; lia).
    lia.
Qed.

(** C3 does not hold of the code.  The page is loaded at [t0] with
    nothing stored, so [checkLockout] initialises the flag [isLocked] to
    [false]; five submissions are rejected at [t1] to [t5], and the fifth
    makes [incrementLoginAttempts] set the flag; the page stays open and
    a sixth submission is made at a time [t] at which the lockout window
    that began at [t5] has run out.  At that time [checkLockout] answers
    [false] (it takes its expiry branch), so the lockout of the claim is
    no longer active; yet [handleLogin], which tests the flag and not
    [checkLockout], cuts the submission short whatever the form holds:
    it renders the lockout message, whose count of remaining minutes is
    zero or negative, disables the form and returns, with no validation
    and no provider call. *)
Theorem C3_lockout_outlives_window t0 t1 t2 t3 t4 t5 t form p1 p2 :
  lockoutDuration CONFIG <= t - t5 ->
  let s5 :=
    submit_wrong t5 (submit_wrong t4 (submit_wrong t3
      (submit_wrong t2 (submit_wrong t1 (snd (load CONFIG None t0)))))) in
  let r5 := {| count := 5; timestamp := t5 |} in
  isLocked (snd (load CONFIG None t0)) = Some false /\
  tracker s5 = (Some (JSON_stringify r5), Some r5, Some true) /\
  fst (checkLockout CONFIG (at_time t s5)) = Ok false /\
  handleLogin CONFIG form p1 p2 (at_time t s5) =
    (Ok tt,
     add_log [PreventDefault;
              ShowMessage (lockoutText (remainingMinutes CONFIG t r5)) "error";
              DisableForm] (at_time t s5)) /\
  remainingMinutes CONFIG t r5 <= 0.
Proof.
  intros Ht. cbv zeta.
  destruct (five_rejected_submissions t0 t1 t2 t3 t4 t5) as (S5 & A5 & B5).
  set (s5 := submit_wrong t5 _) in *. clearbody s5.
  split; [exact (proj2 (load_absent_tracker t0))|].
  split; [unfold tracker; now rewrite S5, A5, B5|].
  apply expired_lockout_blocks; auto.
  cbn [count maxLoginAttempts CONFIG]. lia.
Qed.

(** The same at the times 0, 1 to 5 and 1000000: the message counts
    minus one minute. *)
Lemma C3_lockout_outlives_window_witness :
  fst (checkLockout CONFIG stale_lockout) = Ok false /\
  handleLogin CONFIG sample_form (accepted 0) (accepted 0) stale_lockout =
  (Ok tt,
   add_log
     [PreventDefault;
      ShowMessage
        "Account temporarily locked due to too many failed attempts. Try again in -1 minutes."
        "error";
      DisableForm] stale_lockout).
Proof.
  assert (H : lockoutDuration CONFIG <= 1000000 - 5) by (simpl; lia).
  destruct (@C3_lockout_outlives_window 0 1 2 3 4 5 1000000 sample_form
              (accepted 0) (accepted 0) H) as (_ & _ & K & L & _).
  split; [exact K | exact L].
Defined.

(* ================================================================= *)
(** * Further properties of the login component *)

(** ** Strings *)

Lemma forall_chars_app p a b :
  forall_chars p (a ++ b) = forall_chars p a && forall_chars p b.
Proof. induction a; simpl; auto. now rewrite IHa, andb_assoc. Qed.

Lemma occurrences_app c a b :
  occurrences c (a ++ b) = (occurrences c a + occurrences c b)%nat.
Proof. induction a; simpl; auto. rewrite IHa. lia. Qed.

Lemma length_append a b :
  String.length (a ++ b) = (String.length a + String.length b)%nat.
Proof. induction a; simpl; auto. Qed.

Lemma nonempty_length s : s <> "" -> (1 <= String.length s)%nat.
Proof. destruct s; simpl; [congruence | lia]. Qed.

Lemma plain_run_no_at s :
  forall_chars not_space_at s = true -> occurrences "@" s = 0%nat.
Proof.
  induction s as [|c s IH]; simpl; auto.
  intros H. apply andb_true_iff in H as [Hc Hs]. rewrite (IH Hs).
  unfold not_space_at in Hc. apply negb_true_iff, orb_false_iff in Hc.
  destruct Hc as [_ ->]. reflexivity.
Qed.

Lemma plain_run_no_space s :
  forall_chars not_space_at s = true ->
  forall_chars (fun c => negb (is_space c)) s = true.
Proof.
  induction s as [|c s IH]; simpl; auto.
  intros H. apply andb_true_iff in H as [Hc Hs]. rewrite (IH Hs).
  unfold not_space_at in Hc. apply negb_true_iff, orb_false_iff in Hc.
  destruct Hc as [-> _]. reflexivity.
Qed.

Lemma trim_start_no_space s :
  forall_chars (fun c => negb (is_space c)) s = true -> trim_start s = s.
Proof.
  destruct s as [|c s]; simpl; auto.
  intros H. apply andb_true_iff in H as [Hc _].
  apply negb_true_iff in Hc. now rewrite Hc.
Qed.

Lemma trim_end_no_space s :
  forall_chars (fun c => negb (is_space c)) s = true -> trim_end s = s.
Proof.
  induction s as [|c s IH]; simpl; auto.
  intros H. apply andb_true_iff in H as [Hc Hs].
  rewrite (IH Hs). apply negb_true_iff in Hc. rewrite Hc.
  now destruct s.
Qed.

Lemma trim_no_space s :
  forall_chars (fun c => negb (is_space c)) s = true -> trim s = s.
Proof.
  intros H. unfold trim. rewrite (trim_start_no_space s H).
  now apply trim_end_no_space.
Qed.

Lemma trim_start_length s : (String.length (trim_start s) <= String.length s)%nat.
Proof.
  induction s as [|c s IH]; simpl; auto.
  destruct (is_space c); simpl; lia.
Qed.

Lemma trim_end_length s : (String.length (trim_end s) <= String.length s)%nat.
Proof.
  induction s as [|c s IH]; simpl; auto.
  destruct (trim_end s); [destruct (is_space c)|]; simpl in *; lia.
Qed.

Lemma trim_length s : (String.length (trim s) <= String.length s)%nat.
Proof.
  unfold trim. pose proof (trim_end_length (trim_start s)).
  pose proof (trim_start_length s). lia.
Qed.

(** ** The shape of a valid e-mail address *)

(** An address accepted by [isValidEmail] holds no white space and
    exactly one [@], has at least five characters, and is left as it is
    by [trim]. *)
Theorem isValidEmail_shape s :
  isValidEmail s = true ->
  forall_chars (fun c => negb (is_space c)) s = true /\
  occurrences "@" s = 1%nat /\
  (5 <= String.length s)%nat /\
  trim s = s.
Proof.
  intros H. apply isValidEmail_iff in H.
  destruct H as (a & b & c & -> & [Na Ha] & [Nb Hb] & [Nc Hc]).
  assert (S : forall_chars (fun c => negb (is_space c))
                (a ++ "@" ++ b ++ "." ++ c) = true).
  { rewrite !forall_chars_app.
    rewrite (plain_run_no_space a Ha), (plain_run_no_space b Hb),
      (plain_run_no_space c Hc). reflexivity. }
  split; [exact S|]. split; [|split].
  - rewrite !occurrences_app.
    rewrite (plain_run_no_at a Ha), (plain_run_no_at b Hb), (plain_run_no_at c Hc).
    reflexivity.
  - rewrite !length_append.
    pose proof (nonempty_length Na). pose proof (nonempty_length Nb).
    pose proof (nonempty_length Nc). simpl. lia.
  - now apply trim_no_space.
Qed.

Lemma isValidEmail_shape_witness :
  occurrences "@" "user@example.org" = 1%nat.
Proof. apply (isValidEmail_shape "user@example.org"). reflexivity. Defined.

(** ** The minutes of the lockout message *)

Lemma ceil_div_pos x d : 0 < d -> 0 < x -> 1 <= ceil_div x d.
Proof.
  intros Hd Hx. unfold ceil_div.
  assert ((- x) / d < 0) by (apply Z.div_lt_upper_bound; lia). lia.
Qed.

Lemma ceil_div_nonpos x d : 0 < d -> x <= 0 -> ceil_div x d <= 0.
Proof.
  intros Hd Hx. unfold ceil_div.
  assert (0 <= (- x) / d) by (apply Z.div_pos; lia). lia.
Qed.

Lemma ceil_div_mono x y d : 0 < d -> x <= y -> ceil_div x d <= ceil_div y d.
Proof.
  intros Hd Hxy. unfold ceil_div.
  assert ((- y) / d <= (- x) / d) by (apply Z.div_le_mono; lia). lia.
Qed.

(** While the lockout window is open the message of [showLockoutMessage]
    counts between one minute and the whole duration in minutes (15 for
    [CONFIG]); once the window has run out it counts zero or less. *)
Theorem remainingMinutes_bounds cfg now r :
  (0 <= now - timestamp r < lockoutDuration cfg ->
   1 <= remainingMinutes cfg now r <= ceil_div (lockoutDuration cfg) 60000) /\
  (lockoutDuration cfg <= now - timestamp r ->
   remainingMinutes cfg now r <= 0) /\
  ceil_div (lockoutDuration CONFIG) 60000 = 15.
Proof.
  unfold remainingMinutes. split; [|split; [|reflexivity]].
  - intros [H1 H2]. split.
    + apply ceil_div_pos; lia.
    + apply ceil_div_mono; lia.
  - intros H. apply ceil_div_nonpos; lia.
Qed.

Lemma remainingMinutes_bounds_witness :
  1 <= remainingMinutes CONFIG 600000 {| count := 5; timestamp := 0 |} <= 15 /\
  remainingMinutes CONFIG 960001 {| count := 5; timestamp := 0 |} <= 0.
Proof.
  split.
  - apply (proj1 (remainingMinutes_bounds CONFIG 600000
                    {| count := 5; timestamp := 0 |})).
    simpl. lia.
  - apply (proj1 (proj2 (remainingMinutes_bounds CONFIG 960001
                           {| count := 5; timestamp := 0 |}))).
    simpl. lia.
Defined.

(** ** The password toggle *)

(** After a click the input is a text or a password input and the icon
    matches it; from such a state two clicks change nothing. *)
Theorem togglePasswordVisibility_coherent :
  (forall v, view_coherent (togglePasswordVisibility v)) /\
  (forall v, view_coherent v ->
             togglePasswordVisibility (togglePasswordVisibility v) = v).
Proof.
  split.
  - intros v. unfold togglePasswordVisibility, view_coherent.
    destruct (String.eqb (input_type v) "password"); simpl; auto.
  - intros [ty ic] [[H1 H2]|[H1 H2]]; simpl in *; subst; reflexivity.
Qed.

Lemma togglePasswordVisibility_coherent_witness :
  togglePasswordVisibility
    (togglePasswordVisibility {| input_type := "password"; icon_class := "fas fa-eye" |}) =
  {| input_type := "password"; icon_class := "fas fa-eye" |}.
Proof.
  apply (proj2 togglePasswordVisibility_coherent). left. split; reflexivity.
Defined.

(** ** Validation: what is rendered *)

(** [validateForm] returns [true] exactly when it renders no field error,
    and it renders at most one error for a field. *)
Theorem validateForm_errors cfg email password s :
  let s' := snd (validateForm cfg email password s) in
  (fst (validateForm cfg email password s) = Ok true <-> new_events s s' = []) /\
  (forall f, (List.length (errors_of f (new_events s s')) <= 1)%nat) /\
  (fst (validateForm cfg email password s) = Ok false <->
   exists e l, new_events s s' = e :: l /\ is_field_error e = true).
Proof.
  intros s'. unfold s'. clear s'.
  rewrite validateForm_spec. cbn [fst snd]. rewrite new_events_add_log.
  unfold form_valid, field_errors, email_errors, password_errors.
  rewrite (Z.leb_antisym (length_opt password)).
  destruct (truthy_opt email), (isValidEmail_opt email),
    (truthy_opt password), (length_opt password <? minPasswordLength cfg);
    cbn [negb andb List.app];
    (split; [split; intros H; (discriminate H || reflexivity)|]);
    (split;
     [intros f; unfold errors_of; cbn [filter];
      repeat match goal with
             | |- context [String.eqb ?a f] => destruct (String.eqb a f) eqn:?
             end;
      try (simpl; lia);
      repeat match goal with
             | H : String.eqb _ f = true |- _ => apply String.eqb_eq in H
             end; congruence
     |]);
    (split; [intros H; try discriminate H; eauto
            | intros (e & l & H & _); try discriminate H; reflexivity]).
Qed.

(** ** Validation on blur *)

Lemma truthy_false_iff s : truthy s = false <-> s = "".
Proof. destruct s; simpl; split; congruence. Qed.

(** [validateField] never flags a blank field.  For the e-mail field it
    shows an error exactly when the trimmed text is not empty and fails
    [isValidEmail], which is when a submission of the same text would
    show the same error.  For the password field it measures the trimmed
    text: every non-blank password that a submission rejects as too short
    is flagged.  A field of another name is never flagged. *)
Theorem validateField_agrees cfg input :
  (trim (input_value input) = "" ->
   validateField cfg input = clearFieldError input) /\
  (input_name input = "email" ->
   (existsb is_field_call_error (validateField cfg input) = true <->
    trim (input_value input) <> "" /\
    isValidEmail (trim (input_value input)) = false) /\
   (trim (input_value input) <> "" ->
    (existsb is_field_call_error (validateField cfg input) = true <->
     email_errors (Some (trim (input_value input))) =
       [ShowFieldError "email" "Please enter a valid email address"]))) /\
  (input_name input = "password" ->
   (existsb is_field_call_error (validateField cfg input) = true <->
    trim (input_value input) <> "" /\
    Z.of_nat (String.length (trim (input_value input))) < minPasswordLength cfg) /\
   (trim (input_value input) <> "" ->
    password_errors cfg (Some (input_value input)) <> [] ->
    existsb is_field_call_error (validateField cfg input) = true)) /\
  (input_name input <> "email" -> input_name input <> "password" ->
   validateField cfg input = clearFieldError input).
Proof.
  unfold validateField, clearFieldError.
  destruct input as [name id value]. cbn [input_name input_id input_value].
  split; [|split; [|split]].
  - intros ->. cbn [truthy]. rewrite !andb_false_r. reflexivity.
  - intros ->. change (String.eqb "email" "email") with true.
    change (String.eqb "email" "password") with false. cbn [andb List.app].
    destruct (truthy (trim value)) eqn:T.
    + apply truthy_true_iff in T.
      destruct (isValidEmail (trim value)) eqn:V; cbn [negb existsb List.app is_field_call_error orb].
      * split; [split; [discriminate | intros [_ H]; discriminate H]|].
        intros _. unfold email_errors. cbn [truthy_opt isValidEmail_opt].
        rewrite (proj2 (truthy_true_iff _) T), V. cbn [negb].
        split; discriminate.
      * split; [split; auto|].
        intros _. unfold email_errors. cbn [truthy_opt isValidEmail_opt].
        rewrite (proj2 (truthy_true_iff _) T), V. cbn [negb].
        split; reflexivity.
    + apply truthy_false_iff in T. cbn [existsb List.app is_field_call_error orb].
      split; [split; [discriminate | intros [H _]; congruence]|].
      intros H. congruence.
  - intros ->. change (String.eqb "password" "email") with false.
    change (String.eqb "password" "password") with true. cbn [andb List.app].
    destruct (truthy (trim value)) eqn:T.
    + apply truthy_true_iff in T.
      destruct (Z.of_nat (String.length (trim value)) <? minPasswordLength cfg) eqn:L;
        cbn [existsb List.app is_field_call_error orb].
      * apply Z.ltb_lt in L. split; [split; auto|]. auto.
      * apply Z.ltb_ge in L.
        split; [split; [discriminate | intros [_ H]; lia]|].
        intros _ E. exfalso. apply E. unfold password_errors.
        cbn [truthy_opt length_opt].
        assert (Tv : truthy value = true).
        { apply truthy_true_iff. intros ->. now apply T. }
        rewrite Tv. cbn [negb].
        pose proof (trim_length value).
        destruct (Z.of_nat (String.length value) <? minPasswordLength cfg) eqn:L';
          [apply Z.ltb_lt in L'; lia | reflexivity].
    + apply truthy_false_iff in T. cbn [existsb List.app is_field_call_error orb].
      split; [split; [discriminate | intros [H _]; congruence]|].
      intros H. congruence.
  - intros H1 H2.
    apply String.eqb_neq in H1, H2. rewrite H1, H2. reflexivity.
Qed.

Lemma validateField_agrees_witness :
  existsb is_field_call_error
    (validateField CONFIG
       {| input_name := "password"; input_id := "password";
          input_value := "abc  " |}) = true.
Proof.
  apply (proj2 (proj1 (proj2 (proj2 (validateField_agrees CONFIG
           {| input_name := "password"; input_id := "password";
              input_value := "abc  " |}))) eq_refl)).
  - vm_compute. discriminate.
  - vm_compute. discriminate.
Defined.

(** ** States of a loaded page *)

Lemma jstring_eqb_eq a b : jstring_eqb a b = true -> a = b.
Proof. unfold jstring_eqb. now destruct (list_eq_dec N.eq_dec a b). Qed.

Lemma record_of_json_inv j r :
  record_of_json j = Some r -> j = json_of_record r.
Proof.
  unfold record_of_json.
  destruct j as [| | | | |fs]; try discriminate.
  destruct fs as [|[k1 v1] fs]; try discriminate.
  destruct v1 as [| |c e1| | |]; try discriminate.
  destruct e1; try discriminate.
  destruct fs as [|[k2 v2] fs]; try discriminate.
  destruct v2 as [| |t e2| | |]; try discriminate.
  destruct e2; try discriminate.
  destruct fs; try discriminate.
  destruct (jstring_eqb k1 (jstr "count")) eqn:E1; try discriminate.
  destruct (jstring_eqb k2 (jstr "timestamp")) eqn:E2; try discriminate.
  apply jstring_eqb_eq in E1, E2. subst. intros [= <-]. reflexivity.
Qed.

Lemma consistent_ext cfg s s' :
  tracker s = tracker s' -> consistent cfg s -> consistent cfg s'.
Proof.
  intros T (r & Hr & Hl & Ha). apply tracker_inv in T.
  destruct T as (T1 & T2 & T3). exists r.
  unfold stored_agrees in *. now rewrite <- T1, <- T2, <- T3.
Qed.

Lemma consistent_after_failure cfg s :
  enableRateLimiting cfg = true -> consistent cfg s ->
  fst (incrementLoginAttempts cfg s) = Ok tt /\
  consistent cfg (snd (incrementLoginAttempts cfg s)).
Proof.
  intros He (r & Hr & Hl & Ha).
  rewrite (@incrementLoginAttempts_enabled cfg s r _ He Hr Hl).
  split; [reflexivity|]. cbn [snd].
  exists {| count := count r + 1; timestamp := clock s |}.
  destruct (maxLoginAttempts cfg <=? count r + 1) eqn:E; cbn [count].
  - repeat split; unfold stored_agrees; cbn [loginAttempts isLocked localStorage];
      rewrite ?E; auto. apply JSON_parse_stringify.
  - assert (E' : (maxLoginAttempts cfg <=? count r) = false).
    { apply Z.leb_gt. apply Z.leb_gt in E. lia. }
    repeat split; unfold stored_agrees; cbn [loginAttempts isLocked localStorage];
      rewrite ?E, ?E'; auto. apply JSON_parse_stringify.
Qed.

Lemma consistent_after_reset cfg s :
  0 < maxLoginAttempts cfg -> consistent cfg s ->
  fst (resetLoginAttempts s) = Ok tt /\
  consistent cfg (snd (resetLoginAttempts s)).
Proof.
  intros Hm (r & Hr & Hl & Ha).
  rewrite (@resetLoginAttempts_initialised s r _ Hr Hl).
  split; [reflexivity|]. cbn [snd].
  exists {| count := 0; timestamp := clock s |}.
  assert (E : (maxLoginAttempts cfg <=? 0) = false) by (apply Z.leb_gt; lia).
  repeat split; unfold stored_agrees; cbn [count isLocked localStorage];
    rewrite ?E; auto.
Qed.

(** Every text the program stores is a record item; a number or an
    object without the two members is none. *)
Lemma record_item_stringify r : record_item (Some (JSON_stringify r)) = true.
Proof.
  unfold record_item.
  rewrite JSON_parse_stringify, record_of_json_of_record.
  now destruct (truthy _).
Qed.

Lemma record_item_other_shapes :
  record_item (Some "5") = false /\ record_item (Some "{}") = false.
Proof. split; reflexivity. Qed.

(** Over a record item [getLoginAttempts] returns a record. *)
Lemma getLoginAttempts_record_item s :
  record_item (localStorage s) = true ->
  exists j r, getLoginAttempts s = (Ok j, s) /\ record_of_json j = Some r.
Proof.
  intros I. unfold getLoginAttempts, bind, getItem, Date_now, ret.
  unfold record_item in I.
  destruct (localStorage s) as [a|]; [destruct (truthy a)|].
  - destruct (JSON_parse a) as [j|]; [|discriminate].
    destruct (record_of_json j) as [r|] eqn:R; [|discriminate].
    now exists j, r.
  - eexists _, _. split; [reflexivity | apply record_of_json_of_record].
  - eexists _, _. split; [reflexivity | apply record_of_json_of_record].
Qed.

(** Over a record item the evaluation of the module stays within the
    model: it returns, or it throws the [ReferenceError] of a lockout
    that has run out. *)
Lemma load_record_item cfg stored t :
  record_item stored = true ->
  fst (load cfg stored t) = Ok tt \/ fst (load cfg stored t) = Throw ReferenceError.
Proof.
  intros I. remember (fst (load cfg stored t)) as x eqn:X. revert X.
  unfold load, module_body. unfold bind at 1.
  destruct (@getLoginAttempts_record_item
              {| localStorage := stored; loginAttempts := None; isLocked := None;
                 clock := t; log := [] |} I) as (j & r & G & R).
  rewrite G. unfold bind at 1, as_record at 1. rewrite R.
  unfold bind at 1. cbn beta iota. unfold bind at 1.
  unfold checkLockout. destruct (enableRateLimiting cfg); cbn [negb].
  - unfold bind at 1.
    destruct (@getLoginAttempts_record_item
                (set_loginAttempts r
                   {| localStorage := stored; loginAttempts := None; isLocked := None;
                      clock := t; log := [] |}) I) as (j' & r' & G' & R').
    rewrite G'. unfold bind at 1, as_record at 1. rewrite R'.
    destruct (maxLoginAttempts cfg <=? count r'); [|intros ->; left; reflexivity].
    unfold bind at 1, Date_now at 1.
    match goal with |- context [if ?b then _ else _] => destruct b end;
      [intros ->; left; reflexivity|].
    unfold bind at 1.
    rewrite (@resetLoginAttempts_uninitialised
               (set_loginAttempts r
                  {| localStorage := stored; loginAttempts := None; isLocked := None;
                     clock := t; log := [] |}) r eq_refl eq_refl).
    intros ->. right. reflexivity.
  - intros ->. left. reflexivity.
Qed.

(** What a successful evaluation of the module leaves. *)
Lemma load_consistent cfg stored t s :
  enableRateLimiting cfg = true -> 0 < maxLoginAttempts cfg ->
  load cfg stored t = (Ok tt, s) -> consistent cfg s.
Proof.
  intros He Hm. unfold load, module_body, checkLockout. rewrite He. cbn [negb].
  unfold bind at 1.
  destruct (getLoginAttempts _) as [[j| |] s1] eqn:G; try discriminate.
  assert (S1 : s1 = stored_state stored t /\
               match stored with
               | Some a => if truthy a then JSON_parse a = Some j
                           else j = json_of_record {| count := 0; timestamp := t |}
               | None => j = json_of_record {| count := 0; timestamp := t |}
               end).
  { revert G. unfold getLoginAttempts, bind, getItem, Date_now, ret, throw.
    cbn [localStorage clock].
    destruct stored as [a|]; [destruct (truthy a); [destruct (JSON_parse a)|]|];
      intros [= <- <-]; auto; discriminate. }
  destruct S1 as [-> S1]. clear G.
  unfold bind at 1, as_record at 1.
  destruct (record_of_json j) as [r|] eqn:R; try discriminate.
  apply record_of_json_inv in R. subst j.
  unfold bind at 1. cbn beta iota.
  unfold bind at 1. unfold bind at 1.
  assert (G2 : getLoginAttempts (set_loginAttempts r (stored_state stored t)) =
               (Ok (json_of_record r), set_loginAttempts r (stored_state stored t))).
  { unfold getLoginAttempts, bind, getItem, Date_now, ret, throw.
    cbn [localStorage clock set_loginAttempts stored_state].
    destruct stored as [a|]; [destruct (truthy a); [rewrite S1|]|];
      try reflexivity; now rewrite S1. }
  rewrite G2. unfold bind at 1, as_record at 1.
  rewrite record_of_json_of_record.
  assert (AG : stored_agrees (stored_state stored t) r).
  { unfold stored_agrees. cbn [localStorage stored_state].
    destruct stored as [a|]; [destruct (truthy a)|]; auto;
      unfold json_of_record in S1; cbn [count timestamp] in S1;
      now injection S1. }
  destruct (maxLoginAttempts cfg <=? count r) eqn:E.
  - unfold bind at 1, Date_now at 1.
    cbn [clock set_loginAttempts stored_state].
    destruct (t - timestamp r <? lockoutDuration cfg).
    + unfold ret. intros [= <-]. exists r.
      cbn [loginAttempts isLocked set_isLocked set_loginAttempts].
      rewrite E. repeat split. exact AG.
    + unfold bind at 1.
      rewrite (@resetLoginAttempts_uninitialised
                 (set_loginAttempts r (stored_state stored t)) r eq_refl eq_refl).
      discriminate.
  - unfold ret. intros [= <-]. exists r.
    cbn [loginAttempts isLocked set_isLocked set_loginAttempts].
    rewrite E. repeat split. exact AG.
Qed.

Section Consistency.

Variable cfg : Config.
Hypothesis enabled : enableRateLimiting cfg = true.
Hypothesis positive_max : 0 < maxLoginAttempts cfg.

Lemma succeeds_keeps m : succeeds cfg m -> keeps cfg m.
Proof. intros H s C. destruct (H s C) as [E K]. rewrite E. split; [discriminate | auto]. Qed.

Lemma keeps_bind {A B} (m : M A) (f : A -> M B) :
  keeps cfg m -> (forall a, keeps cfg (f a)) -> keeps cfg (bind m f).
Proof.
  intros Hm Hf s C. unfold bind. destruct (Hm s C) as [N K].
  destruct (m s) as [[a|e|] s1]; simpl in *.
  - now apply Hf.
  - split; [discriminate | exact K].
  - congruence.
Qed.

Lemma succeeds_bind (m k : M unit) :
  succeeds cfg m -> succeeds cfg k -> succeeds cfg (m ;; k).
Proof.
  intros Hm Hk s C. unfold bind. destruct (Hm s C) as [E K].
  destruct (m s) as [[[]|e|] s1]; simpl in *; try discriminate.
  now apply Hk.
Qed.

Lemma succeeds_emit e : succeeds cfg (emit e).
Proof.
  intros s C. split; [reflexivity|]. now apply consistent_ext with (s := s).
Qed.

Lemma keeps_await p : keeps cfg (await p).
Proof.
  intros s C. unfold await.
  destruct (failure p); (split; [discriminate|]);
    now apply consistent_ext with (s := s).
Qed.

Lemma succeeds_resetLoginAttempts : succeeds cfg resetLoginAttempts.
Proof. intros s C. now apply consistent_after_reset. Qed.

Lemma succeeds_incrementLoginAttempts : succeeds cfg (incrementLoginAttempts cfg).
Proof. intros s C. now apply consistent_after_failure. Qed.

Lemma succeeds_showLockoutMessage : succeeds cfg (showLockoutMessage cfg).
Proof.
  intros s C. destruct C as (r & Hr & Hl & Ha).
  assert (E : showLockoutMessage cfg s =
              (Ok tt, add_log [ShowMessage (lockoutText (remainingMinutes cfg (clock s) r))
                                 "error"; DisableForm] s)).
  { destruct s as [st la il ck lg]. simpl in Hr. subst la. run. reflexivity. }
  rewrite E. split; [reflexivity|].
  apply consistent_ext with (s := s); [reflexivity|]. now exists r.
Qed.

Lemma succeeds_handleLoginError e : succeeds cfg (handleLoginError e).
Proof.
  unfold handleLoginError, showMessage.
  apply succeeds_bind; apply succeeds_emit.
Qed.

Lemma succeeds_login_catch e : succeeds cfg (login_catch cfg e).
Proof.
  unfold login_catch.
  apply succeeds_bind;
    [apply succeeds_handleLoginError | apply succeeds_incrementLoginAttempts].
Qed.

Lemma keeps_login_try form p1 p2 : keeps cfg (login_try form p1 p2).
Proof.
  unfold login_try, showMessage, redirect.
  repeat first
    [ apply keeps_await
    | apply succeeds_keeps; first [apply succeeds_emit | apply succeeds_resetLoginAttempts]
    | apply keeps_bind; [|intros] ].
Qed.

Lemma keeps_google_try p : keeps cfg (google_try p).
Proof.
  unfold google_try, showMessage, redirect.
  repeat first
    [ apply keeps_await
    | apply succeeds_keeps; first [apply succeeds_emit | apply succeeds_resetLoginAttempts]
    | apply keeps_bind; [|intros] ].
Qed.

(** A [try] statement whose [catch] and [finally] clauses return. *)
Lemma succeeds_try_catch_finally body handler final :
  keeps cfg body -> (forall e, succeeds cfg (handler e)) -> succeeds cfg final ->
  succeeds cfg (try_catch_finally body handler final).
Proof.
  intros Hb Hh Hf s C. unfold try_catch_finally.
  destruct (Hb s C) as [N K].
  destruct (body s) as [[[]|e|] s1]; simpl in *.
  - now apply Hf.
  - destruct (Hh e s1 K) as [E K'].
    destruct (handler e s1) as [[[]|e'|] s2]; simpl in *; try discriminate.
    now apply Hf.
  - congruence.
Qed.

Lemma succeeds_handleLogin form p1 p2 : succeeds cfg (handleLogin cfg form p1 p2).
Proof.
  intros s C. destruct C as (r & Hr & Hl & Ha).
  destruct (maxLoginAttempts cfg <=? count r) eqn:E.
  - rewrite (@handleLogin_locked cfg form p1 p2 s r Hl Hr).
    split; [reflexivity|].
    apply consistent_ext with (s := s); [reflexivity|].
    exists r. now rewrite E.
  - assert (C : consistent cfg s) by (exists r; now rewrite E).
    destruct (form_valid cfg (submitted_email form) (form_password form)) eqn:V.
    + rewrite handleLogin_valid by assumption.
      apply succeeds_try_catch_finally.
      * apply keeps_login_try.
      * apply succeeds_login_catch.
      * apply succeeds_emit.
      * now apply consistent_ext with (s := s).
    + rewrite handleLogin_invalid by assumption.
      split; [reflexivity|]. now apply consistent_ext with (s := s).
Qed.

Lemma handleGoogleLogin_unlocked p s :
  isLocked s = Some false ->
  handleGoogleLogin cfg p s =
  try_catch_finally (google_try p) (login_catch cfg)
    (setLoading false "google-login-btn")
    (add_log [SetLoading true "google-login-btn"; ClearMessages] s).
Proof.
  intros Hl. destruct s as [st la il ck lg]. simpl in Hl. subst il.
  unfold handleGoogleLogin. unfold bind at 1. unfold read_isLocked at 1.
  cbn [isLocked].
  unfold bind at 1. unfold setLoading at 1, emit at 1.
  unfold bind at 1. unfold clearMessages at 1, emit at 1.
  unfold add_log. simpl. rewrite <- !List.app_assoc. reflexivity.
Qed.

Lemma handleGoogleLogin_locked p s r :
  isLocked s = Some true -> loginAttempts s = Some r ->
  handleGoogleLogin cfg p s =
  (Ok tt,
   add_log [ShowMessage (lockoutText (remainingMinutes cfg (clock s) r)) "error";
            DisableForm] s).
Proof.
  intros Hl Hr. destruct s as [st la il ck lg]. simpl in *. subst.
  unfold handleGoogleLogin. run. reflexivity.
Qed.

Lemma succeeds_handleGoogleLogin p : succeeds cfg (handleGoogleLogin cfg p).
Proof.
  intros s C. destruct C as (r & Hr & Hl & Ha).
  destruct (maxLoginAttempts cfg <=? count r) eqn:E.
  - rewrite (@handleGoogleLogin_locked p s r Hl Hr).
    split; [reflexivity|].
    apply consistent_ext with (s := s); [reflexivity|].
    exists r. now rewrite E.
  - assert (C : consistent cfg s) by (exists r; now rewrite E).
    rewrite handleGoogleLogin_unlocked by assumption.
    apply succeeds_try_catch_finally.
    + apply keeps_google_try.
    + apply succeeds_login_catch.
    + apply succeeds_emit.
    + now apply consistent_ext with (s := s).
Qed.

Lemma succeeds_setupUI : succeeds cfg (setupUI cfg).
Proof.
  intros s C. pose proof C as (r & Hr & Hl & Ha).
  unfold setupUI, bind, read_isLocked. rewrite Hl.
  destruct (maxLoginAttempts cfg <=? count r).
  - now apply succeeds_showLockoutMessage.
  - split; [reflexivity | exact C].
Qed.

Lemma consistent_at_time t s : consistent cfg s -> consistent cfg (at_time t s).
Proof. now apply consistent_ext. Qed.

Lemma reachable_is_consistent s : reachable cfg s -> consistent cfg s.
Proof.
  induction 1 as [stored t s I L | s t R IH | s t form p1 p2 R IH | s t p R IH].
  - now apply load_consistent with (stored := stored) (t := t).
  - now apply succeeds_setupUI, consistent_at_time.
  - now apply succeeds_handleLogin, consistent_at_time.
  - now apply succeeds_handleGoogleLogin, consistent_at_time.
Qed.

End Consistency.

(** The states of a page loaded over a record item are consistent.  The
    page is loaded over no item, the empty string or the JSON text of an
    object with the integer members [count] and [timestamp] in this
    order ([record_item]), rate limiting is enabled and the maximum is
    positive.  If the module is evaluated without an exception, then
    after whatever submissions, Google sign-ins and provider answers
    follow, at whatever times, both bindings are initialised, the stored
    item holds the in-memory record (or nothing is stored and the count
    is zero), and the gate [isLocked] is set exactly when the count has
    reached [maxLoginAttempts]: the passing of time never opens it.
    Nothing is stated of a page loaded over a JSON value of another
    shape. *)
Theorem loaded_page_consistent cfg s :
  enableRateLimiting cfg = true -> 0 < maxLoginAttempts cfg ->
  reachable cfg s ->
  exists r,
    loginAttempts s = Some r /\
    isLocked s = Some (maxLoginAttempts cfg <=? count r) /\
    stored_agrees s r.
Proof. intros He Hm R. exact (reachable_is_consistent He Hm R). Qed.

Lemma reachable_first_load : reachable CONFIG (snd (load CONFIG None 0)).
Proof. apply R_load with (stored := None) (t := 0); reflexivity. Qed.

Lemma loaded_page_consistent_witness :
  exists r,
    loginAttempts (submit_wrong 7 (snd (load CONFIG None 0))) = Some r /\
    isLocked (submit_wrong 7 (snd (load CONFIG None 0))) =
      Some (maxLoginAttempts CONFIG <=? count r) /\
    stored_agrees (submit_wrong 7 (snd (load CONFIG None 0))) r.
Proof.
  apply (@loaded_page_consistent CONFIG).
  - reflexivity.
  - reflexivity.
  - apply R_handleLogin. exact reachable_first_load.
Defined.

(** Once the module has been evaluated over a record item (no item, the
    empty string or the JSON text of an object with the integer members
    [count] and [timestamp] in this order) no handler throws: with rate
    limiting enabled and a positive maximum, from every state of such a
    page [handleLogin], [handleGoogleLogin] and [setupUI] return
    normally, whatever the form and the provider's answers.  Nothing is
    stated of a page loaded over a JSON value of another shape. *)
Theorem loaded_page_handlers_return cfg s :
  enableRateLimiting cfg = true -> 0 < maxLoginAttempts cfg ->
  reachable cfg s ->
  (forall t form p1 p2, fst (handleLogin cfg form p1 p2 (at_time t s)) = Ok tt) /\
  (forall t p, fst (handleGoogleLogin cfg p (at_time t s)) = Ok tt) /\
  (forall t, fst (setupUI cfg (at_time t s)) = Ok tt).
Proof.
  intros He Hm R.
  pose proof (reachable_is_consistent He Hm R) as C.
  split; [|split]; intros t *.
  - apply (succeeds_handleLogin He Hm). now apply consistent_at_time.
  - apply (succeeds_handleGoogleLogin He Hm). now apply consistent_at_time.
  - apply succeeds_setupUI. now apply consistent_at_time.
Qed.

Lemma loaded_page_handlers_return_witness :
  fst (handleGoogleLogin CONFIG (rejected 3 popup_blocked)
         (at_time 9 (snd (load CONFIG None 0)))) = Ok tt.
Proof.
  apply (proj1 (proj2 (@loaded_page_handlers_return CONFIG (snd (load CONFIG None 0))
                         eq_refl eq_refl reachable_first_load))).
Defined.

(** ** Reset, reload and the lockout message at start-up *)

(** After [resetLoginAttempts] nothing is stored, the gate is open and
    [checkLockout] answers [false] at any later time, provided the
    maximum is positive (with a maximum of zero or less the fresh record
    itself counts as locked). *)
Theorem resetLoginAttempts_unlocks cfg s r b t :
  loginAttempts s = Some r -> isLocked s = Some b ->
  0 < maxLoginAttempts cfg ->
  let s' := snd (resetLoginAttempts s) in
  fst (resetLoginAttempts s) = Ok tt /\
  localStorage s' = None /\
  loginAttempts s' = Some {| count := 0; timestamp := clock s |} /\
  isLocked s' = Some false /\
  checkLockout cfg (at_time t s') = (Ok false, at_time t s').
Proof.
  intros Hr Hl Hm s'. unfold s'. clear s'.
  rewrite (@resetLoginAttempts_initialised s r b Hr Hl). cbn [fst snd].
  repeat split. now apply checkLockout_absent.
Qed.

Lemma resetLoginAttempts_unlocks_witness :
  checkLockout CONFIG (at_time 2000000 (snd (resetLoginAttempts stale_lockout))) =
  (Ok false, at_time 2000000 (snd (resetLoginAttempts stale_lockout))).
Proof.
  apply (@resetLoginAttempts_unlocks CONFIG stale_lockout
           {| count := 5; timestamp := 5 |} true 2000000);
    reflexivity.
Defined.

Lemma load_stored cfg r t :
  enableRateLimiting cfg = true ->
  load cfg (Some (JSON_stringify r)) t =
  match checkLockout cfg
          {| localStorage := Some (JSON_stringify r); loginAttempts := Some r;
             isLocked := None; clock := t; log := [] |} with
  | (Ok b, s) => (Ok tt, set_isLocked b s)
  | (Throw e, s) => (Throw e, s)
  | (Unmodelled, s) => (Unmodelled, s)
  end.
Proof.
  intros He. unfold load, module_body.
  unfold bind at 1. rewrite getLoginAttempts_stored with (r := r) by reflexivity.
  unfold bind at 1, as_record. rewrite record_of_json_of_record.
  unfold bind at 1. cbn beta iota.
  unfold bind at 1. unfold set_loginAttempts. cbn [localStorage isLocked clock log].
  destruct (checkLockout cfg _) as [[b| |] s]; reflexivity.
Qed.

(** A reload restores what the last failure stored: loading the page over
    the text written by [incrementLoginAttempts] gives back the same
    record; the gate is open when the count is below the maximum and
    closed when it has been reached and the lockout window is still
    open. *)
Theorem reload_restores_record cfg s r b t :
  enableRateLimiting cfg = true ->
  loginAttempts s = Some r -> isLocked s = Some b ->
  let s1 := snd (incrementLoginAttempts cfg s) in
  let r1 := {| count := count r + 1; timestamp := clock s |} in
  (count r + 1 < maxLoginAttempts cfg ->
   load cfg (localStorage s1) t =
   (Ok tt, {| localStorage := localStorage s1; loginAttempts := Some r1;
              isLocked := Some false; clock := t; log := [] |})) /\
  (maxLoginAttempts cfg <= count r + 1 -> t - clock s < lockoutDuration cfg ->
   load cfg (localStorage s1) t =
   (Ok tt, {| localStorage := localStorage s1; loginAttempts := Some r1;
              isLocked := Some true; clock := t; log := [] |})).
Proof.
  intros He Hr Hl s1 r1.
  assert (S : localStorage s1 = Some (JSON_stringify r1)).
  { unfold s1. rewrite (@incrementLoginAttempts_enabled cfg s r b He Hr Hl).
    fold r1. now destruct (maxLoginAttempts cfg <=? count r + 1). }
  rewrite S. clear S. split.
  - intros Hc. rewrite load_stored by assumption.
    rewrite checkLockout_stored with (r := r1) by (assumption || reflexivity).
    cbn [count r1]. apply Z.leb_gt in Hc. now rewrite Hc.
  - intros Hc Ht. rewrite load_stored by assumption.
    rewrite checkLockout_stored with (r := r1) by (assumption || reflexivity).
    cbn [count timestamp clock r1]. apply Z.leb_le in Hc. apply Z.ltb_lt in Ht.
    now rewrite Hc, Ht.
Qed.

Lemma reload_restores_record_witness :
  load CONFIG (localStorage (snd (incrementLoginAttempts CONFIG
                                    (at_time 40 (snd (load CONFIG None 0)))))) 99 =
  (Ok tt,
   {| localStorage :=
        localStorage (snd (incrementLoginAttempts CONFIG
                             (at_time 40 (snd (load CONFIG None 0)))));
      loginAttempts := Some {| count := 0 + 1; timestamp := 40 |};
      isLocked := Some false; clock := 99; log := [] |}).
Proof.
  apply (proj1 (@reload_restores_record CONFIG (at_time 40 (snd (load CONFIG None 0)))
                  {| count := 0; timestamp := 0 |} false 99
                  eq_refl eq_refl eq_refl)).
  reflexivity.
Defined.

(** [setupUI] shows the lockout message, with the remaining minutes, and
    disables the form exactly when the gate is closed; otherwise it does
    nothing.  It never touches the tracker. *)
Theorem setupUI_shows_lockout cfg s r :
  loginAttempts s = Some r ->
  (isLocked s = Some true ->
   setupUI cfg s =
   (Ok tt,
    add_log [ShowMessage (lockoutText (remainingMinutes cfg (clock s) r)) "error";
             DisableForm] s)) /\
  (isLocked s = Some false -> setupUI cfg s = (Ok tt, s)).
Proof.
  intros Hr. destruct s as [st la il ck lg]. simpl in Hr. subst la.
  split; simpl; intros ->; unfold setupUI; run; reflexivity.
Qed.

Lemma setupUI_shows_lockout_witness :
  setupUI CONFIG stale_lockout =
  (Ok tt,
   add_log [ShowMessage
              (lockoutText (remainingMinutes CONFIG (clock stale_lockout)
                              {| count := 5; timestamp := 5 |})) "error";
            DisableForm] stale_lockout).
Proof.
  apply (proj1 (@setupUI_shows_lockout CONFIG stale_lockout
                  {| count := 5; timestamp := 5 |} eq_refl)).
  reflexivity.
Defined.

(** ** Submissions, from the click to the last event *)

(** A submission that passes the gate and the validation and that the
    provider accepts: the tracker is reset and the stored item removed,
    and the page shows, in this order, the loading state, the success
    message, the redirection in 1500 ms and the end of the loading
    state. *)
Theorem handleLogin_accepted cfg form d1 d2 s r :
  isLocked s = Some false -> loginAttempts s = Some r ->
  form_valid cfg (submitted_email form) (form_password form) = true ->
  handleLogin cfg form (accepted d1) (accepted d2) s =
  (Ok tt,
   {| localStorage := None;
      loginAttempts := Some {| count := 0; timestamp := clock s + d1 + d2 |};
      isLocked := Some false;
      clock := clock s + d1 + d2;
      log := log s ++
             [PreventDefault; SetLoading true "login-btn"; ClearMessages;
              SetPersistence
                match form_remember form with
                | Some v => String.eqb v "on"
                | None => false
                end;
              SignInWithEmailAndPassword (submitted_email form) (form_password form);
              ShowMessage "Login successful! Redirecting..." "success";
              SetTimeout "logged.html" 1500;
              SetLoading false "login-btn"] |}).
Proof.
  intros Hl Hr Hv. rewrite handleLogin_valid by assumption.
  destruct s as [st la il ck lg]. simpl in Hl, Hr. subst.
  unfold try_catch_finally, login_try, accepted. run. reflexivity.
Qed.

Lemma handleLogin_accepted_witness :
  tracker (snd (handleLogin CONFIG sample_form (accepted 10) (accepted 20)
                  (submit_wrong 7 (snd (load CONFIG None 0))))) =
  (None, Some {| count := 0; timestamp := 7 + 10 + 20 |}, Some false).
Proof.
  rewrite (@handleLogin_accepted CONFIG sample_form 10 20
             (submit_wrong 7 (snd (load CONFIG None 0)))
             {| count := 1; timestamp := 7 |} eq_refl eq_refl eq_refl).
  reflexivity.
Defined.

(** A submission that passes the gate and the validation and that the
    provider rejects, with rate limiting enabled.  The failure is counted
    and stored, the translated error is shown, and the loading state is
    ended last.  When the count reaches the maximum the gate is closed
    and the lockout message and the disabling of the form come after the
    error message and before the end of the loading state.  A rejection
    of [setPersistence] is counted in the same way, and then the sign-in
    itself is never asked for. *)
Theorem handleLogin_rejected_events cfg form d1 d2 p2 err s r :
  enableRateLimiting cfg = true ->
  isLocked s = Some false -> loginAttempts s = Some r ->
  form_valid cfg (submitted_email form) (form_password form) = true ->
  let remember :=
    match form_remember form with
    | Some v => String.eqb v "on"
    | None => false
    end in
  let outcome (t : Z) (calls : list Event) : result unit * State :=
    let r' := {| count := count r + 1; timestamp := t |} in
    (Ok tt,
     {| localStorage := Some (JSON_stringify r');
        loginAttempts := Some r';
        isLocked := Some (maxLoginAttempts cfg <=? count r + 1);
        clock := t;
        log := log s ++
               [PreventDefault; SetLoading true "login-btn"; ClearMessages] ++
               calls ++
               [ConsoleError "Login error:" (Rejected err);
                ShowMessage (loginErrorMessage (code err) (message err)) "error"] ++
               (if maxLoginAttempts cfg <=? count r + 1 then
                  [ShowMessage (lockoutText (remainingMinutes cfg t r')) "error";
                   DisableForm]
                else []) ++
               [SetLoading false "login-btn"] |}) in
  handleLogin cfg form (accepted d1) (rejected d2 err) s =
    outcome (clock s + d1 + d2)
      [SetPersistence remember;
       SignInWithEmailAndPassword (submitted_email form) (form_password form)] /\
  handleLogin cfg form (rejected d1 err) p2 s =
    outcome (clock s + d1) [SetPersistence remember].
Proof.
  intros He Hl Hr Hv remember outcome. unfold outcome, remember.
  rewrite !handleLogin_valid by assumption.
  destruct s as [st la il ck lg]. simpl in Hl, Hr. subst.
  unfold try_catch_finally, login_try, login_catch, accepted, rejected.
  split; run;
    match goal with
    | |- context [incrementLoginAttempts cfg ?x] =>
        rewrite (@incrementLoginAttempts_enabled cfg x r false He eq_refl eq_refl)
    end;
    destruct (maxLoginAttempts cfg <=? count r + 1); run; reflexivity.
Qed.

Lemma handleLogin_rejected_events_witness :
  isLocked (snd (handleLogin CONFIG sample_form (rejected 4 wrong_password) (accepted 0)
                   (snd (load CONFIG None 0)))) =
  Some (maxLoginAttempts CONFIG <=? 0 + 1).
Proof.
  rewrite (proj2 (@handleLogin_rejected_events CONFIG sample_form 4 0 (accepted 0)
                    wrong_password (snd (load CONFIG None 0))
                    {| count := 0; timestamp := 0 |}
                    eq_refl eq_refl eq_refl eq_refl)).
  reflexivity.
Defined.

(** ** The Google sign-in handler *)

(** [handleGoogleLogin] has the same gate as [handleLogin] and no
    validation.  With the gate closed it shows the lockout message,
    disables the form and opens no pop-up.  With the gate open it asks
    for the pop-up with the scopes [email] and [profile]; when the
    provider accepts, the tracker is reset, the success message shown and
    the redirection scheduled.  In both cases the loading state of the
    Google button, once set, is ended last. *)
Theorem handleGoogleLogin_outcomes cfg d s r :
  loginAttempts s = Some r ->
  (isLocked s = Some true ->
   handleGoogleLogin cfg (accepted d) s =
   (Ok tt,
    add_log [ShowMessage (lockoutText (remainingMinutes cfg (clock s) r)) "error";
             DisableForm] s)) /\
  (isLocked s = Some false ->
   handleGoogleLogin cfg (accepted d) s =
   (Ok tt,
    {| localStorage := None;
       loginAttempts := Some {| count := 0; timestamp := clock s + d |};
       isLocked := Some false;
       clock := clock s + d;
       log := log s ++
              [SetLoading true "google-login-btn"; ClearMessages;
               SignInWithPopup ["email"; "profile"];
               ShowMessage "Google login successful! Redirecting..." "success";
               SetTimeout "logged.html" 1500;
               SetLoading false "google-login-btn"] |})) /\
  (forall p,
      isLocked s = Some false ->
      exists l,
        new_events s (snd (handleGoogleLogin cfg p s)) =
        ([SetLoading true "google-login-btn"; ClearMessages;
          SignInWithPopup ["email"; "profile"]] ++ l ++
         [SetLoading false "google-login-btn"])%list).
Proof.
  intros Hr. split; [|split].
  - intros Hl. now apply handleGoogleLogin_locked.
  - intros Hl. rewrite handleGoogleLogin_unlocked by assumption.
    destruct s as [st la il ck lg]. simpl in Hl, Hr. subst.
    unfold try_catch_finally, google_try, accepted. run. reflexivity.
  - intros p Hl. rewrite handleGoogleLogin_unlocked by assumption.
    unfold try_catch_finally at 1.
    unfold google_try at 1. unfold bind at 1. unfold emit at 1.
    set (s1 := {| localStorage := _ |}).
    match goal with
    | |- context [(?m ;; ?k) s1] =>
        assert (Tk : tame (m ;; k)) by tame_tac;
        destruct (Tk s1) as [N (l & L)];
        destruct ((m ;; k) s1) as [[[]|e|] s2]
    end; cbn [fst snd] in *.
    + exists l. apply new_events_of_log. unfold setLoading, emit. cbn [snd log].
      rewrite L. unfold s1, add_log. cbn [log].
      rewrite <- !List.app_assoc. reflexivity.
    + destruct (tame_login_catch cfg e s2) as [N' (l' & L')].
      destruct (login_catch cfg e s2) as [[[]|e'|] s3]; cbn [fst snd] in *.
      * exists (l ++ l')%list. apply new_events_of_log.
        unfold setLoading, emit. cbn [snd log].
        rewrite L', L. unfold s1, add_log. cbn [log].
        rewrite <- !List.app_assoc. reflexivity.
      * exists (l ++ l')%list. apply new_events_of_log.
        unfold setLoading, emit. cbn [snd log].
        rewrite L', L. unfold s1, add_log. cbn [log].
        rewrite <- !List.app_assoc. reflexivity.
      * congruence.
    + congruence.
Qed.

Lemma handleGoogleLogin_outcomes_witness :
  tracker (snd (handleGoogleLogin CONFIG (accepted 30)
                  (submit_wrong 7 (snd (load CONFIG None 0))))) =
  (None, Some {| count := 0; timestamp := 7 + 30 |}, Some false).
Proof.
  rewrite (proj1 (proj2 (@handleGoogleLogin_outcomes CONFIG 30
                           (submit_wrong 7 (snd (load CONFIG None 0)))
                           {| count := 1; timestamp := 7 |} eq_refl)) eq_refl).
  reflexivity.
Defined.

(** ** What reaches the provider *)

Section Emits.

Variable P : Event -> Prop.

Lemma emits_same_log {A} (m : M A) :
  (forall s, log (snd (m s)) = log s) -> emits P m.
Proof. intros H s. exists []. rewrite H, List.app_nil_r. auto. Qed.

Lemma emits_ret {A} (a : A) : emits P (ret a).
Proof. now apply emits_same_log. Qed.

Lemma emits_emit e : P e -> emits P (emit e).
Proof. intros H s. exists [e]. split; [reflexivity | auto]. Qed.

Lemma emits_bind {A B} (m : M A) (f : A -> M B) :
  emits P m -> (forall a, emits P (f a)) -> emits P (bind m f).
Proof.
  intros Hm Hf s. unfold bind. destruct (Hm s) as (l & L & F).
  destruct (m s) as [[a|e|] s1]; simpl in *; eauto.
  destruct (Hf a s1) as (l' & L' & F'). exists (l ++ l')%list.
  rewrite L', L, List.app_assoc. split; [reflexivity|].
  apply Forall_app. auto.
Qed.

Lemma emits_if {A} (b : bool) (m1 m2 : M A) :
  emits P m1 -> emits P m2 -> emits P (if b then m1 else m2).
Proof. now destruct b. Qed.

Lemma emits_Date_now : emits P Date_now.
Proof. now apply emits_same_log. Qed.

Lemma emits_setStorage v : emits P (setStorage v).
Proof. now apply emits_same_log. Qed.

Lemma emits_read_loginAttempts : emits P read_loginAttempts.
Proof.
  apply emits_same_log. intros s. unfold read_loginAttempts.
  now destruct (loginAttempts s).
Qed.

Lemma emits_assign_loginAttempts r : emits P (assign_loginAttempts r).
Proof.
  apply emits_same_log. intros s. unfold assign_loginAttempts.
  now destruct (loginAttempts s).
Qed.

Lemma emits_assign_isLocked b : emits P (assign_isLocked b).
Proof.
  apply emits_same_log. intros s. unfold assign_isLocked.
  now destruct (isLocked s).
Qed.

Lemma emits_await r : emits P (await r).
Proof.
  apply emits_same_log. intros s. unfold await. now destruct (failure r).
Qed.

Lemma emits_try_catch_finally body handler final :
  emits P body -> (forall e, emits P (handler e)) -> emits P final ->
  emits P (try_catch_finally body handler final).
Proof.
  intros Hb Hh Hf s. unfold try_catch_finally.
  destruct (Hb s) as (l & L & F).
  destruct (body s) as [[[]|e|] s1]; simpl in *.
  - destruct (Hf s1) as (l' & L' & F'). exists (l ++ l')%list.
    rewrite L', L, List.app_assoc. split; [reflexivity | apply Forall_app; auto].
  - destruct (Hh e s1) as (l1 & L1 & F1).
    destruct (handler e s1) as [[[]|e'|] s2]; simpl in *.
    + destruct (Hf s2) as (l' & L' & F'). exists (l ++ l1 ++ l')%list.
      rewrite L', L1, L, !List.app_assoc.
      split; [reflexivity | repeat (apply Forall_app; split); auto].
    + destruct (Hf s2) as (l' & L' & F'). exists (l ++ l1 ++ l')%list.
      assert (E : log (snd (final s2)) = (log s ++ l ++ l1 ++ l')%list)
        by now rewrite L', L1, L, !List.app_assoc.
      destruct (final s2) as [[[]|e''|] s3]; simpl in *;
        (split; [exact E | repeat (apply Forall_app; split); auto]).
    + exists (l ++ l1)%list. rewrite L1, L, List.app_assoc.
      split; [reflexivity | apply Forall_app; auto].
  - eauto.
Qed.

End Emits.

Ltac emits_tac :=
  repeat first
    [ apply emits_ret | apply emits_Date_now | apply emits_setStorage
    | apply emits_read_loginAttempts | apply emits_assign_loginAttempts
    | apply emits_assign_isLocked | apply emits_await
    | apply emits_emit; simpl; solve [auto]
    | apply emits_if
    | apply emits_bind; [|intros] ].

Lemma emits_login_catch cfg form e :
  emits (checked_sign_in cfg form) (login_catch cfg e).
Proof.
  unfold login_catch, handleLoginError, incrementLoginAttempts,
    showLockoutMessage, showMessage.
  emits_tac.
Qed.

Lemma emits_login_try cfg form p1 p2 :
  form_valid cfg (submitted_email form) (form_password form) = true ->
  emits (checked_sign_in cfg form) (login_try form p1 p2).
Proof.
  intros Hv. unfold login_try, resetLoginAttempts, showMessage, redirect.
  emits_tac.
Qed.

Lemma Forall_field_errors (P : Event -> Prop) cfg email password :
  (forall f t, P (ShowFieldError f t)) ->
  Forall P (field_errors cfg email password).
Proof.
  intros H. unfold field_errors, email_errors, password_errors.
  destruct (truthy_opt email), (isValidEmail_opt email),
    (truthy_opt password), (length_opt password <? minPasswordLength cfg);
    simpl; repeat constructor; auto.
Qed.

(** Every password sign-in that [handleLogin] asks for carries the
    e-mail of the form, trimmed, and its password as typed, and these
    have passed the validation: the gate was open, the e-mail passes
    [isValidEmail] (so it has no white space and one [@]) and the
    password has at least [minPasswordLength] characters. *)
Theorem sign_in_only_after_validation cfg form p1 p2 s email password :
  In (SignInWithEmailAndPassword email password)
     (new_events s (snd (handleLogin cfg form p1 p2 s))) ->
  isLocked s = Some false /\
  exists e p,
    form_email form <> None /\ email = Some e /\ e = trim e /\
    submitted_email form = Some e /\
    form_password form = Some p /\ password = Some p /\
    isValidEmail e = true /\
    minPasswordLength cfg <= Z.of_nat (String.length p) /\ p <> "".
Proof.
  intros HIn.
  assert (K : isLocked s = Some false /\
              checked_sign_in cfg form (SignInWithEmailAndPassword email password)).
  { destruct (isLocked s) as [[|]|] eqn:Hl.
    - exfalso. destruct (loginAttempts s) as [r|] eqn:Hr.
      + rewrite (@handleLogin_locked cfg form p1 p2 s r Hl Hr) in HIn.
        cbn [snd] in HIn. rewrite new_events_add_log in HIn.
        simpl in HIn. intuition discriminate.
      + rewrite (@handleLogin_locked_unset cfg form p1 p2 s Hl Hr) in HIn.
        cbn [snd] in HIn. rewrite new_events_add_log in HIn.
        simpl in HIn. intuition discriminate.
    - split; [reflexivity|].
      destruct (form_valid cfg (submitted_email form) (form_password form)) eqn:Hv.
      + rewrite handleLogin_valid in HIn by assumption.
        destruct (@emits_try_catch_finally (checked_sign_in cfg form)
                    (login_try form p1 p2) (login_catch cfg)
                    (setLoading false "login-btn")
                    (emits_login_try cfg form p1 p2 Hv)
                    (emits_login_catch cfg form)
                    (emits_emit (checked_sign_in cfg form)
                       (SetLoading false "login-btn") I)
                    (add_log [PreventDefault; SetLoading true "login-btn";
                              ClearMessages] s))
          as (l & L & F).
        rewrite (@new_events_of_log s _
                   ([PreventDefault; SetLoading true "login-btn"; ClearMessages] ++ l))
          in HIn.
        * rewrite Forall_forall in F.
          simpl in HIn. destruct HIn as [H|[H|[H|H]]]; try discriminate.
          now apply F.
        * rewrite L. unfold add_log. cbn [log]. now rewrite <- List.app_assoc.
      + exfalso. rewrite handleLogin_invalid in HIn by assumption.
        cbn [snd] in HIn. rewrite new_events_add_log in HIn.
        destruct HIn as [H|H]; [discriminate|].
        pose proof (@Forall_field_errors not_sign_in cfg (submitted_email form)
                      (form_password form) (fun _ _ => I)) as F.
        rewrite Forall_forall in F. exact (F _ H).
    - exfalso. rewrite (@handleLogin_uninitialised cfg form p1 p2 s Hl) in HIn.
      cbn [snd] in HIn. rewrite new_events_add_log in HIn.
      simpl in HIn. intuition discriminate. }
  destruct K as [Hl (E1 & E2 & Hv)]. split; [exact Hl|]. subst email password.
  unfold submitted_email in *.
  destruct (form_email form) as [e0|]; [|discriminate Hv].
  destruct (form_password form) as [p|]; cbn [option_map] in *;
    [|unfold form_valid in Hv; cbn in Hv; rewrite andb_false_r in Hv; discriminate].
  apply form_valid_iff in Hv. destruct Hv as (V1 & V2 & V3 & V4).
  exists (trim e0), p. repeat split; auto; try discriminate.
  symmetry. now apply isValidEmail_shape.
Qed.

Lemma sign_in_only_after_validation_witness :
  isLocked (snd (load CONFIG None 0)) = Some false.
Proof.
  apply (@sign_in_only_after_validation CONFIG sample_form (accepted 0) (accepted 0)
           (snd (load CONFIG None 0)) (Some "a@b.co") (Some "secret1")).
  vm_compute. right. right. right. right. left. reflexivity.
Defined.

(** ** Rate limiting switched off *)

Section Disabled.

Variable cfg : Config.
Hypothesis disabled : enableRateLimiting cfg = false.

(** The module is evaluated without an exception over every record
    item, whatever count and time stamp it holds. *)
Lemma load_disabled_returns stored t :
  record_item stored = true -> fst (load cfg stored t) = Ok tt.
Proof.
  intros I. unfold load, module_body. unfold bind at 1.
  destruct (@getLoginAttempts_record_item
              {| localStorage := stored; loginAttempts := None; isLocked := None;
                 clock := t; log := [] |} I) as (j & r & G & R).
  rewrite G. unfold bind at 1, as_record at 1. rewrite R.
  unfold bind at 1. cbn beta iota. unfold bind at 1.
  rewrite checkLockout_disabled by assumption. reflexivity.
Qed.

Lemma load_disabled stored t s :
  load cfg stored t = (Ok tt, s) ->
  isLocked s = Some false /\ exists r, loginAttempts s = Some r.
Proof.
  unfold load, module_body. unfold bind at 1.
  destruct (getLoginAttempts _) as [[j| |] s1] eqn:G; try discriminate.
  unfold bind at 1, as_record at 1.
  destruct (record_of_json j) as [r|]; try discriminate.
  unfold bind at 1. cbn beta iota. unfold bind at 1.
  rewrite checkLockout_disabled by assumption.
  intros [= <-]. split; [reflexivity|]. now exists r.
Qed.

Lemma handleLogin_disabled form p1 p2 s r :
  isLocked s = Some false -> loginAttempts s = Some r ->
  fst (handleLogin cfg form p1 p2 s) = Ok tt /\
  isLocked (snd (handleLogin cfg form p1 p2 s)) = Some false /\
  exists r', loginAttempts (snd (handleLogin cfg form p1 p2 s)) = Some r'.
Proof.
  intros Hl Hr.
  destruct (form_valid cfg (submitted_email form) (form_password form)) eqn:Hv.
  - rewrite handleLogin_valid by assumption.
    destruct s as [st la il ck lg]. simpl in Hl, Hr. subst.
    destruct p1 as [d1 [e1|]], p2 as [d2 [e2|]];
      unfold try_catch_finally, login_try, login_catch; run;
      rewrite ?incrementLoginAttempts_disabled by assumption;
      simpl; eauto.
  - rewrite handleLogin_invalid by assumption. cbn [fst snd add_log isLocked loginAttempts].
    eauto.
Qed.

Lemma handleGoogleLogin_disabled p s r :
  isLocked s = Some false -> loginAttempts s = Some r ->
  fst (handleGoogleLogin cfg p s) = Ok tt /\
  isLocked (snd (handleGoogleLogin cfg p s)) = Some false /\
  exists r', loginAttempts (snd (handleGoogleLogin cfg p s)) = Some r'.
Proof.
  intros Hl Hr. rewrite handleGoogleLogin_unlocked by assumption.
  destruct s as [st la il ck lg]. simpl in Hl, Hr. subst.
  destruct p as [d [e|]];
    unfold try_catch_finally, google_try, login_catch; run;
    rewrite ?incrementLoginAttempts_disabled by assumption;
    simpl; eauto.
Qed.

Lemma reachable_disabled s :
  reachable cfg s -> isLocked s = Some false /\ exists r, loginAttempts s = Some r.
Proof.
  induction 1 as [stored t s I L | s t R IH | s t form p1 p2 R IH | s t p R IH].
  - now apply load_disabled with (stored := stored) (t := t).
  - destruct IH as [Hl [r Hr]].
    unfold setupUI, bind, read_isLocked. cbn [isLocked at_time]. rewrite Hl.
    cbn [snd ret isLocked loginAttempts at_time]. eauto.
  - destruct IH as [Hl [r Hr]].
    now apply (@handleLogin_disabled form p1 p2 (at_time t s) r).
  - destruct IH as [Hl [r Hr]].
    now apply (@handleGoogleLogin_disabled p (at_time t s) r).
Qed.

End Disabled.

(** With [enableRateLimiting] switched off nobody is ever locked out.
    Over every record item (no item, the empty string or the JSON text
    of an object with the integer members [count] and [timestamp] in
    this order), whatever count and time stamp it holds, a lockout that
    has run out included, the module is evaluated without an exception;
    the gate is open after the page has loaded and stays open through
    every submission and Google sign-in; and a rejected sign-in leaves
    the stored item, the record and the gate as they were.  Nothing is
    stated of a page loaded over a JSON value of another shape. *)
Theorem rate_limiting_disabled cfg :
  enableRateLimiting cfg = false ->
  (forall stored t, record_item stored = true -> fst (load cfg stored t) = Ok tt) /\
  (forall s, reachable cfg s -> isLocked s = Some false) /\
  (forall form d1 d2 err s,
      isLocked s = Some false ->
      form_valid cfg (submitted_email form) (form_password form) = true ->
      tracker (snd (handleLogin cfg form (accepted d1) (rejected d2 err) s)) =
      tracker s) /\
  (forall d err s,
      isLocked s = Some false ->
      tracker (snd (handleGoogleLogin cfg (rejected d err) s)) = tracker s).
Proof.
  intros Hd. split; [|split; [|split]].
  - intros stored t I. now apply load_disabled_returns.
  - intros s R. now apply (reachable_disabled Hd R).
  - intros form d1 d2 err s Hl Hv.
    rewrite handleLogin_rejected by assumption.
    now rewrite incrementLoginAttempts_disabled.
  - intros d err s Hl.
    destruct (@handleGoogleLogin_rejected cfg d err s Hl) as [T _].
    rewrite T. now rewrite incrementLoginAttempts_disabled.
Qed.

Lemma rate_limiting_disabled_witness :
  fst (load CONFIG_unlimited
         (Some (JSON_stringify {| count := 5; timestamp := 0 |})) 900000) = Ok tt /\
  isLocked
    (snd (load CONFIG_unlimited
            (Some (JSON_stringify {| count := 99; timestamp := 0 |})) 1)) =
  Some false.
Proof.
  split.
  - apply (proj1 (@rate_limiting_disabled CONFIG_unlimited eq_refl)).
    reflexivity.
  - apply (proj1 (proj2 (@rate_limiting_disabled CONFIG_unlimited eq_refl))).
    apply R_load
      with (stored := Some (JSON_stringify {| count := 99; timestamp := 0 |})) (t := 1);
      reflexivity.
Defined.

(* ================================================================= *)
(** * Properties of the signup component *)

Ltac signup_run :=
  repeat (progress
            (unfold Signup.showMessage, Signup.clearMessages, Signup.showFieldError,
               Signup.setLoading, Signup.redirect, Signup.handleSignupError,
               Signup.await, Signup.bind, Signup.ret, Signup.throw, Signup.emit in *;
             simpl));
  rewrite <- ?List.app_assoc; simpl.

Lemma signup_validate_spec min email password confirm l :
  Signup.validateSignupForm min email password confirm l =
  (Signup.Ok (Signup.form_valid min email password confirm),
   (l ++ Signup.field_errors min email password confirm)%list).
Proof.
  unfold Signup.validateSignupForm, Signup.form_valid, Signup.field_errors.
  rewrite (Z.leb_antisym (length_opt password)).
  destruct (truthy_opt email), (isValidEmail_opt email),
    (truthy_opt password), (length_opt password <? min),
    (truthy_opt confirm), (Signup.differ password confirm);
    signup_run; rewrite ?List.app_nil_r; reflexivity.
Qed.

Lemma signup_differ_false p c :
  Signup.differ (Some p) (Some c) = false <-> c = p.
Proof.
  unfold Signup.differ. rewrite negb_false_iff, String.eqb_eq.
  split; congruence.
Qed.

(** [validateSignupForm] accepts exactly when the e-mail is not empty
    and passes [isValidEmail], the password is not empty and has at least
    [minPasswordLength] characters, and the confirmation equals the
    password; it returns [true] exactly when it renders no field error. *)
Theorem signup_validateSignupForm min email password confirm l :
  (fst (Signup.validateSignupForm min (Some email) (Some password) (Some confirm) l) =
     Signup.Ok true <->
   email <> "" /\ isValidEmail email = true /\
   password <> "" /\ min <= Z.of_nat (String.length password) /\
   confirm = password) /\
  (forall e p c,
      fst (Signup.validateSignupForm min e p c l) = Signup.Ok true <->
      snd (Signup.validateSignupForm min e p c l) = l).
Proof.
  split.
  - rewrite signup_validate_spec. cbn [fst]. unfold Signup.form_valid.
    cbn [truthy_opt isValidEmail_opt length_opt].
    split.
    + intros [= H]. rewrite !andb_true_iff in H.
      destruct H as [[[[[H1 H2] H3] H4] H5] H6].
      apply negb_true_iff, signup_differ_false in H6.
      rewrite truthy_true_iff in H1, H3. apply Z.leb_le in H4. auto.
    + intros (H1 & H2 & H3 & H4 & H5). subst confirm.
      rewrite (proj2 (truthy_true_iff _) H1), H2, (proj2 (truthy_true_iff _) H3),
        (proj2 (Z.leb_le _ _) H4), (proj2 (signup_differ_false _ _) eq_refl).
      reflexivity.
  - intros e p c. rewrite signup_validate_spec. cbn [fst snd].
    unfold Signup.form_valid, Signup.field_errors.
    rewrite (Z.leb_antisym (length_opt p)).
    destruct (truthy_opt e), (isValidEmail_opt e),
      (truthy_opt p), (length_opt p <? min),
      (truthy_opt c), (Signup.differ p c); cbn [negb andb List.app];
      (split; intros H;
       [try discriminate H; try (now rewrite List.app_nil_r)
       |try reflexivity;
        exfalso; apply (f_equal (@List.length _)) in H;
        rewrite ?List.length_app in H; simpl in H; lia]).
Qed.

Lemma before_at_cons a rest :
  occurrences "@" a = 0%nat -> Signup.before_at (a ++ String "@" rest) = a.
Proof.
  induction a as [|c a IH]; simpl; auto.
  destruct (Ascii.eqb c "@"); [discriminate|]. intros H. now rewrite IH.
Qed.

Lemma before_at_app a rest :
  occurrences "@" a = 0%nat -> Signup.before_at (a ++ "@" ++ rest) = a.
Proof. exact (@before_at_cons a rest). Qed.

(** The display name given to a new account, [email.split("@")[0]], is
    for a valid address its local part: a non-empty run of characters
    without white space or [@], with which the address starts. *)
Theorem signup_display_name email :
  isValidEmail email = true ->
  plain_run (Signup.before_at email) /\
  exists domain, email = Signup.before_at email ++ "@" ++ domain.
Proof.
  intros H. apply isValidEmail_iff in H.
  destruct H as (a & b & c & -> & [Na Ha] & _ & _).
  rewrite before_at_app by now apply plain_run_no_at.
  split; [split; assumption|]. now exists (b ++ "." ++ c).
Qed.

Lemma signup_display_name_witness :
  plain_run (Signup.before_at "jane.doe@example.org").
Proof. apply (signup_display_name "jane.doe@example.org"). reflexivity. Defined.

Lemma signup_errorMessage_unknown c m :
  Signup.unknown_code c ->
  Signup.signupErrorMessage c m =
  or_else m "An unexpected error occurred. Please try again.".
Proof.
  intros U. destruct c as [k|]; [|reflexivity].
  specialize (U k eq_refl). unfold Signup.known_codes in U. simpl in U.
  unfold Signup.signupErrorMessage, code_is.
  repeat match goal with
         | |- context [String.eqb k ?x] =>
             let E := fresh "E" in
             destruct (String.eqb k x) eqn:E;
             [apply String.eqb_eq in E; exfalso; apply U; rewrite E; tauto|]
         end.
  reflexivity.
Qed.

(** [handleSignupError] translates its six codes to canned sentences
    whatever the message; any other code, among them the codes that only
    the login page knows ([auth/wrong-password], [auth/user-not-found]),
    yields the provider's message when it is not empty and the generic
    sentence otherwise.  The handler logs the error and shows the
    sentence. *)
Theorem signup_handleSignupError :
  (forall m,
      Signup.signupErrorMessage (Some "auth/email-already-in-use") m =
        "An account already exists with this email address." /\
      Signup.signupErrorMessage (Some "auth/invalid-email") m =
        "Please enter a valid email address." /\
      Signup.signupErrorMessage (Some "auth/weak-password") m =
        "Password is too weak. Please use a stronger password." /\
      Signup.signupErrorMessage (Some "auth/network-request-failed") m =
        "Network error. Please check your connection and try again." /\
      Signup.signupErrorMessage (Some "auth/popup-closed-by-user") m =
        "Sign-up was cancelled. Please try again." /\
      Signup.signupErrorMessage (Some "auth/popup-blocked") m =
        "Pop-up was blocked. Please allow pop-ups and try again.") /\
  (forall c fallback,
      Signup.unknown_code c -> fallback <> "" ->
      Signup.signupErrorMessage c (Some fallback) = fallback) /\
  (forall c,
      Signup.unknown_code c ->
      Signup.signupErrorMessage c None =
        "An unexpected error occurred. Please try again." /\
      Signup.signupErrorMessage c (Some "") =
        "An unexpected error occurred. Please try again.") /\
  Signup.unknown_code (Some "auth/wrong-password") /\
  Signup.unknown_code (Some "auth/user-not-found") /\
  (forall e l,
      Signup.handleSignupError e l =
      (Signup.Ok tt,
       (l ++ [Signup.ConsoleError "Signup error:" e;
              Signup.ShowMessage
                (Signup.signupErrorMessage (Signup.error_code e)
                   (Signup.error_message e)) "error"])%list)).
Proof.
  split; [|split; [|split; [|split; [|split]]]].
  - intros m. repeat split.
  - intros c fallback U Hf. rewrite signup_errorMessage_unknown by assumption.
    destruct fallback; [congruence | reflexivity].
  - intros c U. now rewrite !signup_errorMessage_unknown by assumption.
  - intros k [= <-]. unfold Signup.known_codes. simpl.
    intros H. repeat (destruct H as [H|H]; [discriminate H|]). exact H.
  - intros k [= <-]. unfold Signup.known_codes. simpl.
    intros H. repeat (destruct H as [H|H]; [discriminate H|]). exact H.
  - intros e l. signup_run. reflexivity.
Qed.

Lemma signup_handleSignupError_witness :
  Signup.signupErrorMessage (Some "auth/wrong-password") (Some "Firebase: wrong password") =
  "Firebase: wrong password".
Proof.
  apply (proj1 (proj2 signup_handleSignupError)).
  - exact (proj1 (proj2 (proj2 (proj2 signup_handleSignupError)))).
  - discriminate.
Defined.

Lemma signup_handleSignup_unfold min form c u l :
  Signup.handleSignup min form c u l =
  let email := option_map trim (Signup.form_email form) in
  if Signup.form_valid min email (Signup.form_password form) (Signup.form_confirm form)
  then
    Signup.try_catch_finally
      (Signup.bind (Signup.emit
                      (Signup.CreateUserWithEmailAndPassword email
                         (Signup.form_password form)))
         (fun _ =>
            Signup.bind (Signup.await c)
              (fun _ =>
                 Signup.bind
                   match email with
                   | Some e => Signup.ret (Signup.before_at e)
                   | None => Signup.throw Signup.TypeError
                   end
                   (fun displayName =>
                      Signup.bind (Signup.emit (Signup.UpdateProfile displayName))
                        (fun _ =>
                           Signup.bind (Signup.await u)
                             (fun _ =>
                                Signup.bind
                                  (Signup.showMessage
                                     "Account created successfully! Redirecting..."
                                     "success")
                                  (fun _ => Signup.redirect)))))))
      Signup.handleSignupError
      (Signup.setLoading false "signup-btn")
      (l ++ [Signup.PreventDefault; Signup.SetLoading true "signup-btn";
             Signup.ClearMessages])%list
  else
    (Signup.Ok tt,
     (l ++ Signup.PreventDefault ::
        Signup.field_errors min email (Signup.form_password form)
          (Signup.form_confirm form))%list).
Proof.
  unfold Signup.handleSignup.
  unfold Signup.bind at 1. unfold Signup.emit at 1.
  unfold Signup.bind at 1. rewrite signup_validate_spec.
  cbv zeta.
  destruct (Signup.form_valid min (option_map trim (Signup.form_email form))
              (Signup.form_password form) (Signup.form_confirm form)) eqn:V.
  - cbn [negb].
    assert (E : Signup.field_errors min (option_map trim (Signup.form_email form))
                  (Signup.form_password form) (Signup.form_confirm form) = []).
    { revert V. unfold Signup.form_valid, Signup.field_errors.
      rewrite (Z.leb_antisym (length_opt (Signup.form_password form))).
      destruct (truthy_opt _), (isValidEmail_opt _), (truthy_opt _),
        (length_opt _ <? min), (truthy_opt _), (Signup.differ _ _);
        simpl; congruence. }
    rewrite E, List.app_nil_r.
    unfold Signup.bind at 1. unfold Signup.setLoading at 1, Signup.emit at 1.
    unfold Signup.bind at 1. unfold Signup.clearMessages at 1, Signup.emit at 1.
    rewrite <- !List.app_assoc. reflexivity.
  - cbn [negb]. unfold Signup.ret. rewrite <- List.app_assoc. reflexivity.
Qed.

Lemma signup_field_errors_not_provider min e p c :
  existsb Signup.is_provider_call (Signup.field_errors min e p c) = false.
Proof.
  unfold Signup.field_errors.
  destruct (truthy_opt e), (isValidEmail_opt e), (truthy_opt p),
    (length_opt p <? min), (truthy_opt c), (Signup.differ p c); reflexivity.
Qed.

(** When [validateSignupForm] rejects the form, [handleSignup] returns
    after rendering the field errors: no account is asked for and the
    loading state is never set. *)
Theorem signup_invalid_form_aborts min form c u l :
  fst (Signup.validateSignupForm min (option_map trim (Signup.form_email form))
         (Signup.form_password form) (Signup.form_confirm form) l) = Signup.Ok false ->
  exists errors,
    Signup.handleSignup min form c u l =
      (Signup.Ok tt, (l ++ Signup.PreventDefault :: errors)%list) /\
    errors <> [] /\
    existsb Signup.is_provider_call errors = false /\
    ~ In (Signup.SetLoading true "signup-btn") errors.
Proof.
  rewrite signup_validate_spec. cbn [fst]. intros [= V].
  rewrite signup_handleSignup_unfold. cbv zeta. rewrite V.
  eexists. split; [reflexivity|]. split; [|split].
  - revert V. unfold Signup.form_valid, Signup.field_errors.
    rewrite (Z.leb_antisym (length_opt (Signup.form_password form))).
    destruct (truthy_opt _), (isValidEmail_opt _), (truthy_opt _),
      (length_opt _ <? min), (truthy_opt _), (Signup.differ _ _);
      simpl; congruence.
  - apply signup_field_errors_not_provider.
  - unfold Signup.field_errors.
    destruct (truthy_opt _), (isValidEmail_opt _), (truthy_opt _),
      (length_opt _ <? min), (truthy_opt _), (Signup.differ _ _);
      simpl; intuition discriminate.
Qed.

Lemma signup_invalid_form_aborts_witness :
  exists errors,
    Signup.handleSignup 6
      {| Signup.form_email := Some "a@b.co"; Signup.form_password := Some "secret1";
         Signup.form_confirm := Some "secret2" |} None None [] =
      (Signup.Ok tt, ([] ++ Signup.PreventDefault :: errors)%list) /\
    errors <> [] /\
    existsb Signup.is_provider_call errors = false /\
    ~ In (Signup.SetLoading true "signup-btn") errors.
Proof.
  apply (@signup_invalid_form_aborts 6
           {| Signup.form_email := Some "a@b.co"; Signup.form_password := Some "secret1";
              Signup.form_confirm := Some "secret2" |} None None []).
  reflexivity.
Defined.

(** A signup that passes the validation.  The account is asked for with
    the trimmed e-mail and the password.  When the provider accepts, the
    profile is updated with the local part of the e-mail as display name,
    the success message is shown and the redirection scheduled.  When the
    account creation is rejected the profile is never updated; when the
    profile update is rejected, after the account has been created, the
    page shows the translated error and neither the success message nor
    the redirection.  In all three cases the loading state is ended
    last. *)
Theorem signup_handleSignup_outcomes min form l :
  fst (Signup.validateSignupForm min (option_map trim (Signup.form_email form))
         (Signup.form_password form) (Signup.form_confirm form) l) = Signup.Ok true ->
  exists e,
    option_map trim (Signup.form_email form) = Some e /\
    isValidEmail e = true /\
    let start :=
      [Signup.PreventDefault; Signup.SetLoading true "signup-btn";
       Signup.ClearMessages;
       Signup.CreateUserWithEmailAndPassword (Some e) (Signup.form_password form)] in
    let failed err :=
      [Signup.ConsoleError "Signup error:" (Signup.Rejected err);
       Signup.ShowMessage (Signup.signupErrorMessage (code err) (message err)) "error";
       Signup.SetLoading false "signup-btn"] in
    Signup.handleSignup min form None None l =
      (Signup.Ok tt,
       (l ++ start ++
        [Signup.UpdateProfile (Signup.before_at e);
         Signup.ShowMessage "Account created successfully! Redirecting..." "success";
         Signup.SetTimeout "logged.html" 1500;
         Signup.SetLoading false "signup-btn"])%list) /\
    (forall err u,
        Signup.handleSignup min form (Some err) u l =
        (Signup.Ok tt, (l ++ start ++ failed err)%list)) /\
    (forall err,
        Signup.handleSignup min form None (Some err) l =
        (Signup.Ok tt,
         (l ++ start ++ Signup.UpdateProfile (Signup.before_at e) :: failed err)%list)).
Proof.
  rewrite signup_validate_spec. cbn [fst]. intros [= V].
  assert (E : exists e, option_map trim (Signup.form_email form) = Some e /\
                        isValidEmail e = true).
  { revert V. unfold Signup.form_valid.
    destruct (option_map trim (Signup.form_email form)) as [e|];
      cbn [truthy_opt isValidEmail_opt andb]; [|discriminate].
    destruct (truthy e); cbn [andb]; [|discriminate].
    destruct (isValidEmail e) eqn:Ve; cbn [andb]; [|discriminate].
    intros _. exists e. split; [reflexivity | exact Ve]. }
  destruct E as (e & E & Ve). exists e. split; [exact E|]. split; [exact Ve|].
  cbv zeta.
  split; [|split]; intros;
    rewrite signup_handleSignup_unfold; cbv zeta; rewrite V, E;
    unfold Signup.try_catch_finally; signup_run; reflexivity.
Qed.

Lemma signup_handleSignup_outcomes_witness :
  exists e,
    option_map trim (Some "  jane@example.org ") = Some e /\
    isValidEmail e = true /\
    snd (Signup.handleSignup 6
           {| Signup.form_email := Some "  jane@example.org ";
              Signup.form_password := Some "secret1";
              Signup.form_confirm := Some "secret1" |} None None []) =
    [Signup.PreventDefault; Signup.SetLoading true "signup-btn";
     Signup.ClearMessages;
     Signup.CreateUserWithEmailAndPassword (Some e) (Some "secret1");
     Signup.UpdateProfile (Signup.before_at e);
     Signup.ShowMessage "Account created successfully! Redirecting..." "success";
     Signup.SetTimeout "logged.html" 1500;
     Signup.SetLoading false "signup-btn"].
Proof.
  destruct (@signup_handleSignup_outcomes 6
              {| Signup.form_email := Some "  jane@example.org ";
                 Signup.form_password := Some "secret1";
                 Signup.form_confirm := Some "secret1" |} [] eq_refl)
    as (e & E & V & H & _).
  exists e. split; [exact E|]. split; [exact V|].
  cbn [Signup.form_password] in H. rewrite H. reflexivity.
Defined.

(** [handleGoogleSignup] validates nothing and has no gate: it sets the
    loading state of the Google button, asks for the pop-up with the
    scopes [email] and [profile], then shows the success message and
    schedules the redirection, or shows the translated error; the
    loading state is ended last in both cases. *)
Theorem signup_handleGoogleSignup_outcomes l :
  Signup.handleGoogleSignup None l =
    (Signup.Ok tt,
     (l ++ [Signup.SetLoading true "google-signup-btn"; Signup.ClearMessages;
            Signup.SignInWithPopup ["email"; "profile"];
            Signup.ShowMessage "Account created with Google! Redirecting..." "success";
            Signup.SetTimeout "logged.html" 1500;
            Signup.SetLoading false "google-signup-btn"])%list) /\
  (forall err,
      Signup.handleGoogleSignup (Some err) l =
      (Signup.Ok tt,
       (l ++ [Signup.SetLoading true "google-signup-btn"; Signup.ClearMessages;
              Signup.SignInWithPopup ["email"; "profile"];
              Signup.ConsoleError "Signup error:" (Signup.Rejected err);
              Signup.ShowMessage
                (Signup.signupErrorMessage (code err) (message err)) "error";
              Signup.SetLoading false "google-signup-btn"])%list)).
Proof.
  split.
  - unfold Signup.handleGoogleSignup, Signup.try_catch_finally. signup_run. reflexivity.
  - intros err. unfold Signup.handleGoogleSignup, Signup.try_catch_finally.
    signup_run. reflexivity.
Qed.
